(** * pairinteraction: states built from labels, and the System pipeline

    The first part embeds [libpairinteraction/SystemBase.cpp], the two
    explicit specialisations of [SystemBase<T>::createStateFromLabel].
    The later parts model the components the specification describes
    (matrix element cache, basis builder, operator assembler, System
    life cycle), for which the repository's C++ is not among the embedded
    sources; every such definition says so in its doc comment. *)

From Stdlib Require Import ZArith QArith Qabs String Ascii List Lia Lqa.
From stdpp Require Import base option list gmap strings sorting.

Local Open Scope string_scope.

(** ** State identity model *)

Module State.

(** Modelled from the spec: [State.h] (the declarations of [StateOne] and
    [StateTwo]) is missing.  A single-atom state is built either from
    (species, n, l, j, m) or from a label that an external lookup
    resolves.  [j] and [m] are half-integers; they are stored doubled, so
    the C++ call [StateOne("Rb", 69, 0, 0.5, 0.5)] is
    [StateOne_qn "Rb" 69 0 1 1]. *)
Inductive StateOne : Type :=
| StateOne_qn (species : string) (n l : Z) (j2 m2 : Z)
| StateOne_label (label : string).

(** Modelled from the spec: a pair state is an ordered pair of single-atom
    states. *)
Record StateTwo : Type := StateTwo_states { first : StateOne; second : StateOne }.

(** Modelled from the spec: [StateTwo(std::array<std::string, 2>)], the
    constructor from two labels; each label seeds one single-atom state. *)
Definition StateTwo_labels (label : string * string) : StateTwo :=
  StateTwo_states (StateOne_label (fst label)) (StateOne_label (snd label)).

(** The label a single-atom state was seeded with, if any. *)
Definition getLabel (s : StateOne) : option string :=
  match s with
  | StateOne_label label => Some label
  | StateOne_qn _ _ _ _ _ => None
  end.

#[global] Instance StateOne_eq_dec : EqDecision StateOne.
Proof. solve_decision. Defined.

#[global] Instance StateTwo_eq_dec : EqDecision StateTwo.
Proof. solve_decision. Defined.

End State.

Import State.

(** ** SystemBase.cpp *)

(** [template <class T> class SystemBase] with its member template
    [createStateFromLabel]: one method per state type. *)
Class SystemBase (T : Type) : Type := { createStateFromLabel : string -> T }.

(** [StateOne SystemBase<StateOne>::createStateFromLabel(std::string label)] *)
#[global] Instance SystemBase_StateOne : SystemBase StateOne :=
  {| createStateFromLabel label := StateOne_label label |}.

(** [StateTwo SystemBase<StateTwo>::createStateFromLabel(std::string label)] *)
#[global] Instance SystemBase_StateTwo : SystemBase StateTwo :=
  {| createStateFromLabel label := StateTwo_labels ("0_" +:+ label, "1_" +:+ label) |}.

(** *** Reading a per-atom label

    A per-atom label has the shape [<index>_<label>].  The two functions
    below read the decimal atom index in front of the first underscore
    and the text behind it. *)

Definition digit_of (c : ascii) : option N :=
  let k := N_of_ascii c in
  if ((48 <=? k) && (k <=? 57))%N then Some (k - 48)%N else None.

Fixpoint read_index (acc : option N) (label : string) : option N :=
  match label with
  | EmptyString => None
  | String c rest =>
      if Ascii.eqb c "_" then acc
      else match digit_of c with
           | Some d => read_index (Some (10 * default 0%N acc + d)%N) rest
           | None => None
           end
  end.

Definition atom_index (label : string) : option N := read_index None label.

Fixpoint label_body (label : string) : option string :=
  match label with
  | EmptyString => None
  | String c rest => if Ascii.eqb c "_" then Some rest else label_body rest
  end.

(** The atom index carried by a single-atom state seeded from a label. *)
Definition state_atom_index (s : StateOne) : option N :=
  getLabel s ≫= atom_index.

Definition state_label_body (s : StateOne) : option string :=
  getLabel s ≫= label_body.

(** What it means for a pair state to be seeded from [label] with the
    atom indices [i0] (first atom) and [i1] (second atom). *)
Definition seeded_with_indices (i0 i1 : N) (label : string) (st : StateTwo) : Prop :=
  state_atom_index (first st) = Some i0
  /\ state_atom_index (second st) = Some i1
  /\ state_label_body (first st) = Some label
  /\ state_label_body (second st) = Some label.

(** ** Errors and the monad of the stateful operations *)

(** Modelled from the spec: the error taxonomy of the core. *)
Inductive Error : Type :=
| InvalidStateError
| GeometryError
| NotReadyError
| ConvergenceError
| CacheIOError.

Inductive result (A : Type) : Type :=
| Ok (a : A)
| Err (e : Error).
Arguments Ok {A} a.
Arguments Err {A} e.

(** A method of a mutable object of type [St]: it returns a value or
    throws, and the object keeps whatever was written before the throw. *)
Definition M (St A : Type) : Type := St -> result A * St.

#[global] Instance M_ret {St} : MRet (M St) := fun A a st => (Ok a, st).

#[global] Instance M_bind {St} : MBind (M St) := fun A B f m st =>
  match m st with
  | (Ok a, st') => f a st'
  | (Err e, st') => (Err e, st')
  end.

#[global] Instance M_fmap {St} : FMap (M St) := fun A B f m =>
  a ← m; mret (f a).

Definition throw {St A} (e : Error) : M St A := fun st => (Err e, st).
Definition read {St} : M St St := fun st => (Ok st, st).
Definition write {St} (st' : St) : M St unit := fun _ => (Ok tt, st').

(** Run a method of a member object (a field of [St]) inside [St]. *)
Definition lift {St Sub A} (proj : St -> Sub) (upd : Sub -> St -> St)
  (m : M Sub A) : M St A := fun st =>
  let '(r, sub') := m (proj st) in (r, upd sub' st).

(** [for (x : l) acc = f(x, acc);] *)
Fixpoint foldM {St A B} (f : A -> B -> M St B) (l : list A) (acc : B) : M St B :=
  match l with
  | [] => mret acc
  | x :: l' => acc' ← f x acc; foldM f l' acc'
  end.

(** ** Matrix element cache *)

Module MatrixElementCache.
Section Cache.
Context {K : Type} `{Countable K} {V : Type}.

(** Modelled from the spec: the cache class is missing.  Two tiers: an
    in-memory mapping in front of a durable store; [disk = None] is the
    session in which the backing store is unavailable and the cache runs
    on memory alone. *)
Record cache : Type := Cache { memory : gmap K V; disk : option (gmap K V) }.

Definition empty : cache := Cache ∅ (Some ∅).

(** Modelled from the spec: [get(key) -> Optional<Value>]; a miss in
    memory triggers a disk lookup. *)
Definition get (k : K) (c : cache) : option V :=
  match memory c !! k with
  | Some v => Some v
  | None => disk c ≫= lookup k
  end.

(** Modelled from the spec: [put(key, value)], insert-if-absent: an attempt
    to overwrite an existing key is a no-op. *)
Definition put (k : K) (v : V) (c : cache) : cache :=
  match get k c with
  | Some _ => c
  | None => Cache (<[k := v]> (memory c)) (insert k v <$> disk c)
  end.

(** Modelled from the spec: what the Operator Assembler does for each
    element it needs: look it up, and on a miss compute it with the
    external routine and insert it. *)
Definition fetch (compute : K -> V) (k : K) : M cache V := fun c =>
  match get k c with
  | Some v => (Ok v, c)
  | None => let v := compute k in (Ok v, put k v c)
  end.

(** The values are a function of the key: whatever the cache holds under
    a key is what that key computes to. *)
Definition valued_by (compute : K -> V) (c : cache) : Prop :=
  forall k v, get k c = Some v -> v = compute k.

End Cache.
Arguments cache K {_ _} V.
End MatrixElementCache.

(** ** Basis builder *)

(** Modelled from the spec: the atomic-data provider, an external
    collaborator: the unperturbed energy of a state, and for a species and
    an orbital angular momentum [l] the admissible values of [2j]. *)
Class AtomicData : Type := {
  energy : StateOne -> Q;
  angular_momenta : string -> Z -> list Z
}.

Module BasisBuilder.

(** Modelled from the spec: the restriction predicates, each one active
    ([Some (lo, hi)], a closed window) or not; the [j] and [m] windows are
    in doubled units like the quantum numbers themselves. *)
Record Restrictions : Type := {
  energy_window : option (Q * Q);
  n_window : option (Z * Z);
  l_window : option (Z * Z);
  j_window : option (Z * Z);
  m_window : option (Z * Z)
}.

Definition getN (s : StateOne) : option Z :=
  match s with StateOne_qn _ n _ _ _ => Some n | StateOne_label _ => None end.
Definition getL (s : StateOne) : option Z :=
  match s with StateOne_qn _ _ l _ _ => Some l | StateOne_label _ => None end.
Definition getJ2 (s : StateOne) : option Z :=
  match s with StateOne_qn _ _ _ j2 _ => Some j2 | StateOne_label _ => None end.
Definition getM2 (s : StateOne) : option Z :=
  match s with StateOne_qn _ _ _ _ m2 => Some m2 | StateOne_label _ => None end.

Definition in_window (w : option (Z * Z)) (x : option Z) : bool :=
  match w, x with
  | None, _ => true
  | Some (lo, hi), Some v => (lo <=? v)%Z && (v <=? hi)%Z
  | Some _, None => false
  end.

Definition in_energy_window (w : option (Q * Q)) (e : Q) : bool :=
  match w with
  | None => true
  | Some (lo, hi) => Qle_bool lo e && Qle_bool e hi
  end.

(** The cheap integer-range predicates. *)
Definition satisfies_numbers (r : Restrictions) (s : StateOne) : bool :=
  in_window (n_window r) (getN s) && in_window (l_window r) (getL s)
  && in_window (j_window r) (getJ2 s) && in_window (m_window r) (getM2 s).

Definition satisfies_energy `{AtomicData} (r : Restrictions) (s : StateOne) : bool :=
  in_energy_window (energy_window r) (energy s).

(** All active predicates, composed conjunctively. *)
Definition satisfies `{AtomicData} (r : Restrictions) (s : StateOne) : bool :=
  satisfies_numbers r s && satisfies_energy r s.

(** The integers of the closed window [lo..hi]. *)
Definition window_values (w : Z * Z) : list Z := seqZ (fst w) (snd w - fst w + 1).

(** [2m] runs over [-2j, -2j+2, ..., 2j]. *)
Definition m_values (j2 : Z) : list Z := (fun k => 2 * k - j2)%Z <$> seqZ 0 (j2 + 1).

(** Modelled from the spec: the bounded enumeration of the candidate
    states inside the n and l windows; [l >= n] and [|m| > j] are
    physically inconsistent and never generated. *)
Definition enumerate `{AtomicData} (species : string) (nw lw : Z * Z) : list StateOne :=
  n ← window_values nw;
  l ← window_values lw;
  if ((0 <=? l) && (l <? n))%Z then
    j2 ← angular_momenta species l;
    m2 ← m_values j2;
    [StateOne_qn species n l j2 m2]
  else [].

(** Membership in the enumerated range, stated without the enumeration. *)
Definition candidate `{AtomicData} (species : string) (nw lw : Z * Z) (s : StateOne) : Prop :=
  exists n l j2 m2 : Z,
    s = StateOne_qn species n l j2 m2
    /\ (fst nw <= n <= snd nw)%Z /\ (fst lw <= l <= snd lw)%Z
    /\ (0 <= l < n)%Z
    /\ j2 ∈ angular_momenta species l
    /\ (- j2 <= m2 <= j2)%Z /\ (exists k : Z, m2 = 2 * k - j2)%Z.

(** Ordering of the basis: by unperturbed energy. *)
Definition energy_le `{AtomicData} (s t : StateOne) : Prop :=
  Qle_bool (energy s) (energy t) = true.

#[global] Instance energy_le_dec `{AtomicData} (s t : StateOne) : Decision (energy_le s t).
Proof. unfold energy_le. apply _. Defined.

(** Modelled from the spec: [buildSingleAtomBasis]: enumerate inside the
    mandatory n and l windows, apply the integer-range filters, then the
    energy filter, drop duplicates and order by energy.  Without an n or an
    l window the enumeration does not proceed. *)
Definition buildSingleAtomBasis `{AtomicData} (species : string) (r : Restrictions)
  : option (list StateOne) :=
  match n_window r, l_window r with
  | Some nw, Some lw =>
      Some (merge_sort energy_le
              (remove_dups
                 (filter (fun s => satisfies_energy r s = true)
                    (filter (fun s => satisfies_numbers r s = true)
                       (enumerate species nw lw)))))
  | _, _ => None
  end.

(** Energy of a pair state: the sum of the constituent energies. *)
Definition pair_energy `{AtomicData} (s : StateTwo) : Q :=
  (energy (first s) + energy (second s))%Q.

Definition pair_energy_le `{AtomicData} (s t : StateTwo) : Prop :=
  Qle_bool (pair_energy s) (pair_energy t) = true.

#[global] Instance pair_energy_le_dec `{AtomicData} (s t : StateTwo) :
  Decision (pair_energy_le s t).
Proof. unfold pair_energy_le. apply _. Defined.

(** Modelled from the spec: [buildPairBasis]: the cartesian product of two
    single-atom bases, pruned by the pair energy window at once. *)
Definition buildPairBasis `{AtomicData} (basisA basisB : list StateOne)
  (w : option (Q * Q)) : list StateTwo :=
  merge_sort pair_energy_le
    (remove_dups
       (filter (fun s => in_energy_window w (pair_energy s) = true)
          (a ← basisA; b ← basisB; [StateTwo_states a b]))).

End BasisBuilder.

(** A concrete atomic-data provider for the examples: hydrogen-like
    energies [-1/n^2] and one valence electron of spin 1/2, so that
    [2j] is [2l - 1] (when positive) or [2l + 1]. *)
Definition hydrogenic : AtomicData :=
  {| energy s :=
       match s with
       | StateOne_qn _ n _ _ _ => (-1 / inject_Z (n * n))%Q
       | StateOne_label _ => 0%Q
       end;
     angular_momenta _ l := filter (fun j2 => (0 < j2)%Z) [2 * l - 1; 2 * l + 1]%Z |}.

(** The windows of a small example: n in 2..3, l in 0..1, m = +1/2 only. *)
Definition example_restrictions : BasisBuilder.Restrictions :=
  {| BasisBuilder.energy_window := None;
     BasisBuilder.n_window := Some (2, 3)%Z;
     BasisBuilder.l_window := Some (0, 1)%Z;
     BasisBuilder.j_window := None;
     BasisBuilder.m_window := Some (1, 1)%Z |}.

(** ** Operator assembler *)

(** The library is built twice, as [pireal] (scalars are [double]) and as
    [picomplex]; the notebooks import [pireal].  A [double] is modelled by
    the rational it denotes: the assembler only moves and compares
    values, their arithmetic stays with the external collaborators. *)
Class Scalar (S : Type) : Type := {
  szero : S;
  conjugate : S -> S;
  of_real : Q -> S
}.

#[global] Instance pireal : Scalar Q :=
  {| szero := 0%Q; conjugate x := x; of_real x := x |}.

#[global] Instance picomplex : Scalar (Q * Q) :=
  {| szero := (0%Q, 0%Q); conjugate z := (fst z, (- snd z)%Q); of_real x := (x, 0%Q) |}.

(** Modelled from the spec: the closed set of operator kinds. *)
Inductive OperatorKind : Type :=
| DipoleDipole
| Multipole (order : nat)
| SurfaceGreenTensor.

#[global] Instance OperatorKind_eq_dec : EqDecision OperatorKind.
Proof. solve_decision. Defined.

#[global] Instance OperatorKind_countable : Countable OperatorKind.
Proof.
  refine (inj_countable'
    (fun k => match k with
              | DipoleDipole => inl false
              | Multipole order => inr order
              | SurfaceGreenTensor => inl true
              end)
    (fun x => match x with
              | inl false => DipoleDipole
              | inr order => Multipole order
              | inl true => SurfaceGreenTensor
              end) _).
  intros [| |]; reflexivity.
Defined.

#[global] Instance StateOne_countable : Countable StateOne.
Proof.
  refine (inj_countable'
    (fun s => match s with
              | StateOne_qn species n l j2 m2 => inl (species, n, l, j2, m2)
              | StateOne_label label => inr label
              end)
    (fun x => match x with
              | inl (species, n, l, j2, m2) => StateOne_qn species n l j2 m2
              | inr label => StateOne_label label
              end) _).
  intros [|]; reflexivity.
Defined.

(** Modelled from the spec: the geometric parameters of a pair System. *)
Record Geometry : Type := {
  distance : Q;
  angle : Q;
  surface_distance : Q;
  green_tensor : bool
}.

(** [cos] of the C library, an external collaborator. *)
Class Libm : Type := { cos : Q -> Q }.

Definition Qltb (x y : Q) : bool := negb (Qle_bool y x).

(** [distance*cos(angle)/2]: the height of the centre of mass below which
    one atom lies under the surface plane. *)
Definition surface_bound `{Libm} (g : Geometry) : Q :=
  (distance g * cos (angle g) / 2)%Q.

(** Modelled from the spec: the surface term is enabled and the surface
    distance is smaller than the bound. *)
Definition invalid_geometry `{Libm} (g : Geometry) : bool :=
  green_tensor g && Qltb (surface_distance g) (surface_bound g).

Definition check_geometry `{Libm} {St} (g : Geometry) : M St unit :=
  if invalid_geometry g then throw GeometryError else mret tt.

(** Modelled from the spec: a sparse square matrix over the basis indices;
    an entry that was never written is zero. *)
Record Operator (S : Type) : Type := { dim : nat; entries : gmap (nat * nat) S }.
Arguments dim {S} _.
Arguments entries {S} _.

Definition entry {Sc : Type} `{Scalar Sc} (op : Operator Sc) (i j : nat) : Sc :=
  default szero (entries op !! (i, j)).

Module OperatorAssembler.

(** The key of a cache entry: operator kind, bra and ket single-atom state. *)
Abbreviation Key := (OperatorKind * StateOne * StateOne)%type.

(** Modelled from the spec: what the assembler takes from its external
    collaborators: the selection rules, the computation of one atomic
    matrix element, and the combination of the two atomic elements with
    the geometric prefactors. *)
Class Physics (S : Type) : Type := {
  couples : OperatorKind -> StateTwo -> StateTwo -> bool;
  compute_element : Key -> S;
  combine : Geometry -> OperatorKind -> StateTwo -> StateTwo -> S -> S -> S
}.

(** The operator kind selected by the configuration flags. *)
Definition operator_kind (g : Geometry) : OperatorKind :=
  if green_tensor g then SurfaceGreenTensor else DipoleDipole.

Section Assembler.
Context {Sc : Type} `{Physics Sc}.

Definition coupling (g : Geometry) (a b : StateTwo)
  : M (MatrixElementCache.cache Key Sc) Sc :=
  e1 ← MatrixElementCache.fetch compute_element (operator_kind g, first a, first b);
  e2 ← MatrixElementCache.fetch compute_element (operator_kind g, second a, second b);
  mret (combine g (operator_kind g) a b e1 e2).

(** Modelled from the spec: one pair (i, j) with i <= j: if the selection
    rules permit a coupling, compute it and write it into (i, j) and
    (j, i). *)
Definition assemble_pair (g : Geometry) (basis : list StateTwo) (i j : nat)
  (m : gmap (nat * nat) Sc) : M (MatrixElementCache.cache Key Sc) (gmap (nat * nat) Sc) :=
  match basis !! i, basis !! j with
  | Some a, Some b =>
      if couples (operator_kind g) a b then
        c ← coupling g a b;
        mret (<[(j, i) := c]> (<[(i, j) := c]> m))
      else mret m
  | _, _ => mret m
  end.

Definition assemble_row (g : Geometry) (basis : list StateTwo) (i : nat)
  (m : gmap (nat * nat) Sc) : M (MatrixElementCache.cache Key Sc) (gmap (nat * nat) Sc) :=
  foldM (assemble_pair g basis i) (seq i (length basis - i)) m.

(** [for (i = 0; i < N; ++i) for (j = i; j < N; ++j) ...] *)
Definition assemble (g : Geometry) (basis : list StateTwo)
  : M (MatrixElementCache.cache Key Sc) (gmap (nat * nat) Sc) :=
  foldM (assemble_row g basis) (seq 0 (length basis)) ∅.

(** Modelled from the spec: [buildInteraction(basis, geometry)]: the
    geometry is checked first, then the matrix is assembled. *)
Definition buildInteraction `{Libm} (basis : list StateTwo) (g : Geometry)
  : M (MatrixElementCache.cache Key Sc) (Operator Sc) :=
  check_geometry g;;
  m ← assemble g basis;
  mret {| dim := length basis; entries := m |}.

(** The value a fetch of [k] yields in any cache grown from [c0]: what
    [c0] holds for [k], or else what the external routine computes. *)
Definition resolve (c0 : MatrixElementCache.cache Key Sc) (k : Key) : Sc :=
  default (compute_element k) (MatrixElementCache.get k c0).

(** The coupling of the pair states [a] and [b], with the atomic elements
    resolved against the cache [c0] the assembly started from. *)
Definition coupling_value (c0 : MatrixElementCache.cache Key Sc) (g : Geometry)
  (a b : StateTwo) : Sc :=
  combine g (operator_kind g) a b
    (resolve c0 (operator_kind g, first a, first b))
    (resolve c0 (operator_kind g, second a, second b)).

(** The entry (p, q) of the assembled matrix, read off the basis: it is
    the coupling of the states with the smaller and the larger index. *)
Definition expected_entry (c0 : MatrixElementCache.cache Key Sc) (g : Geometry)
  (basis : list StateTwo) (p q : nat) : option Sc :=
  match basis !! Nat.min p q, basis !! Nat.max p q with
  | Some a, Some b =>
      if couples (operator_kind g) a b then Some (coupling_value c0 g a b) else None
  | _, _ => None
  end.

(** [c] was grown from [c0] by fetches: it keeps what [c0] held, and what
    it holds beyond that was computed by the external routine. *)
Definition grown_from (c0 c : MatrixElementCache.cache Key Sc) : Prop :=
  (forall k v, MatrixElementCache.get k c0 = Some v -> MatrixElementCache.get k c = Some v)
  /\ (forall k v, MatrixElementCache.get k c = Some v -> v = resolve c0 k).

(** The pairs (lo, hi), lo <= hi, in [done] are written, no other entry is. *)
Definition assembled_upto (c0 : MatrixElementCache.cache Key Sc) (g : Geometry)
  (basis : list StateTwo) (done : nat -> nat -> Prop) (m : gmap (nat * nat) Sc) : Prop :=
  forall p q,
    (done (Nat.min p q) (Nat.max p q) -> m !! (p, q) = expected_entry c0 g basis p q)
    /\ (~ done (Nat.min p q) (Nat.max p q) -> m !! (p, q) = None).

End Assembler.

(** Every coupling the assembly of [basis] can compute equals its own
    conjugate, and so does zero (the value of the entries never written). *)
Definition self_conjugate_couplings {Sc : Type} `{Scalar Sc} `{Physics Sc}
  (c0 : MatrixElementCache.cache Key Sc) (g : Geometry) (basis : list StateTwo) : Prop :=
  conjugate szero = szero
  /\ forall a b, a ∈ basis -> b ∈ basis ->
       conjugate (coupling_value c0 g a b) = coupling_value c0 g a b.

End OperatorAssembler.

(** ** The pair System *)

(** Modelled from the spec: the numerical collaborators of the System: the
    eigensolver, which may fail to converge, and the rotation of a
    reference state followed by the overlap with each eigenvector. *)
Class Numerics (Sc : Type) : Type := {
  solve : Operator Sc -> Operator Sc -> Q -> result (list Q * list (list Sc));
  overlap : list StateTwo -> list (list Sc) -> StateTwo -> Q * Q * Q -> list Q
}.

Module SystemTwo.

(** Modelled from the spec: the stages of the state machine of a System. *)
Inductive Stage : Type :=
| BasisBuilt
| DiagonalBuilt
| InteractionBuilt
| Diagonalized.

Definition stage_rank (s : Stage) : nat :=
  match s with
  | BasisBuilt => 0
  | DiagonalBuilt => 1
  | InteractionBuilt => 2
  | Diagonalized => 3
  end.


Definition stage_min (s t : Stage) : Stage :=
  if (stage_rank s <=? stage_rank t)%nat then s else t.

Definition is_ok {A : Type} (r : result A) : bool :=
  match r with Ok _ => true | Err _ => false end.

Section System.
Context {Sc : Type} {scalar : Scalar Sc}.

(** Modelled from the spec: the System binds the two single-atom bases it
    was created from, the pair energy window, the geometry, the cache
    handle, the Basis and the diagonal part (both in place from the
    construction on), the interaction part once it has been built, whether
    the geometry has changed since, and the eigen-decomposition while it is
    valid. *)
Record System : Type := {
  basisA : list StateOne;
  basisB : list StateOne;
  pair_window : option (Q * Q);
  geometry : Geometry;
  cache : MatrixElementCache.cache OperatorAssembler.Key Sc;
  basis : list StateTwo;
  diagonal : Operator Sc;
  interaction : option (Operator Sc);
  stale : bool;
  eigen : option (list Q * list (list Sc))
}.

Definition default_geometry : Geometry :=
  {| distance := 0%Q; angle := 0%Q; surface_distance := 0%Q; green_tensor := false |}.

(** The diagonal part: the unperturbed pair energies. *)
Definition diagonal_operator {atomic : AtomicData} (b : list StateTwo) : Operator Sc :=
  {| dim := length b;
     entries := list_to_map
       (imap (fun i s => ((i, i), of_real (BasisBuilder.pair_energy s))) b) |}.

Definition with_cache (c : MatrixElementCache.cache OperatorAssembler.Key Sc)
  (s : System) : System :=
  {| basisA := basisA s; basisB := basisB s; pair_window := pair_window s;
     geometry := geometry s; cache := c; basis := basis s; diagonal := diagonal s;
     interaction := interaction s; stale := stale s; eigen := eigen s |}.

(** A new pair energy window: the Basis and the diagonal part are built
    at once, whatever was built on the old Basis is dropped. *)
Definition with_pair_window {atomic : AtomicData} (w : option (Q * Q)) (s : System) : System :=
  {| basisA := basisA s; basisB := basisB s; pair_window := w;
     geometry := geometry s; cache := cache s;
     basis := BasisBuilder.buildPairBasis (basisA s) (basisB s) w;
     diagonal := diagonal_operator (BasisBuilder.buildPairBasis (basisA s) (basisB s) w);
     interaction := None; stale := false; eigen := None |}.

(** A new geometry: the eigen-decomposition is no longer valid and the
    interaction part, if one was built, is out of date.  It is kept and
    marked, not dropped: the loops of vdw_near_surface.ipynb and of
    pair_potential_near_surface.ipynb call [setSurfaceDistance] and
    [setDistance] after [buildInteraction] and go on with [diagonalize]. *)
Definition with_geometry (g : Geometry) (s : System) : System :=
  {| basisA := basisA s; basisB := basisB s; pair_window := pair_window s;
     geometry := g; cache := cache s; basis := basis s; diagonal := diagonal s;
     interaction := interaction s; stale := true; eigen := None |}.

(** A newly assembled interaction part replaces the old one. *)
Definition with_interaction (op : Operator Sc) (s : System) : System :=
  {| basisA := basisA s; basisB := basisB s; pair_window := pair_window s;
     geometry := geometry s; cache := cache s; basis := basis s; diagonal := diagonal s;
     interaction := Some op; stale := false; eigen := None |}.

Definition with_eigen (e : list Q * list (list Sc)) (s : System) : System :=
  {| basisA := basisA s; basisB := basisB s; pair_window := pair_window s;
     geometry := geometry s; cache := cache s; basis := basis s; diagonal := diagonal s;
     interaction := interaction s; stale := stale s; eigen := Some e |}.

Definition modify (f : System -> System) : M System unit := fun s => (Ok tt, f s).

(** The stage a System is in, read off what it holds. *)
Definition stage_of (s : System) : Stage :=
  match eigen s, interaction s with
  | Some _, _ => Diagonalized
  | None, Some _ => InteractionBuilt
  | None, None => DiagonalBuilt
  end.

Context {atomic : AtomicData} {libm : Libm}
  {physics : OperatorAssembler.Physics Sc} {numerics : Numerics Sc}.

(** Modelled from the spec: creating a pair System from two single-atom
    Systems fixes the Basis, and the diagonal part is built immediately. *)
Definition create (a b : list StateOne)
  (c : MatrixElementCache.cache OperatorAssembler.Key Sc) : System :=
  {| basisA := a; basisB := b; pair_window := None; geometry := default_geometry;
     cache := c; basis := BasisBuilder.buildPairBasis a b None;
     diagonal := diagonal_operator (BasisBuilder.buildPairBasis a b None);
     interaction := None; stale := false; eigen := None |}.

Definition restrictEnergy (lo hi : Q) : M System unit :=
  modify (with_pair_window (Some (lo, hi))).

(** The interaction part assembled for the geometry as it is now; the
    geometry is checked before anything is computed or stored. *)
Definition assembleInteraction : M System (Operator Sc) :=
  s ← read;
  op ← lift cache with_cache (OperatorAssembler.buildInteraction (basis s) (geometry s));
  modify (with_interaction op);;
  mret op.

Definition buildInteraction : M System unit :=
  assembleInteraction;; mret tt.

(** Modelled from the spec: [diagonalize(tolerance)] needs the interaction
    stage, that is an earlier [buildInteraction].  An interaction part
    that a change of geometry has put out of date is assembled anew first
    (the rebuild the notebooks' loops rely on), so no stale operator is
    ever diagonalized; a solver that does not converge leaves the
    operator as it is. *)
Definition diagonalize (tolerance : Q) : M System unit :=
  s ← read;
  match interaction s with
  | None => throw NotReadyError
  | Some built =>
      op ← (if stale s then assembleInteraction else mret built);
      match solve (diagonal s) op tolerance with
      | Ok e => modify (with_eigen e)
      | Err e => throw e
      end
  end.

Definition getEigenvalues : M System (list Q) :=
  s ← read;
  match eigen s with
  | Some e => mret (fst e)
  | None => throw NotReadyError
  end.

Definition getOverlap (reference : StateTwo) (angles : Q * Q * Q) : M System (list Q) :=
  s ← read;
  match eigen s with
  | Some e => mret (overlap (basis s) (snd e) reference angles)
  | None => throw NotReadyError
  end.

(** The geometry setters. *)
Definition with_distance (d : Q) (g : Geometry) : Geometry :=
  {| distance := d; angle := angle g; surface_distance := surface_distance g;
     green_tensor := green_tensor g |}.
Definition with_angle (a : Q) (g : Geometry) : Geometry :=
  {| distance := distance g; angle := a; surface_distance := surface_distance g;
     green_tensor := green_tensor g |}.
Definition with_surface_distance (d : Q) (g : Geometry) : Geometry :=
  {| distance := distance g; angle := angle g; surface_distance := d;
     green_tensor := green_tensor g |}.
Definition with_green_tensor (b : bool) (g : Geometry) : Geometry :=
  {| distance := distance g; angle := angle g; surface_distance := surface_distance g;
     green_tensor := b |}.

Definition setDistance (d : Q) : M System unit :=
  modify (fun s => with_geometry (with_distance d (geometry s)) s).

Definition setAngle (a : Q) : M System unit :=
  modify (fun s => with_geometry (with_angle a (geometry s)) s).

Definition enableGreenTensor (b : bool) : M System unit :=
  modify (fun s => with_geometry (with_green_tensor b (geometry s)) s).

(** Modelled from the spec: a surface distance that puts an atom below the
    surface plane is refused when it is set, before anything is stored. *)
Definition setSurfaceDistance (d : Q) : M System unit :=
  s ← read;
  check_geometry (with_surface_distance d (geometry s));;
  modify (fun s' => with_geometry (with_surface_distance d (geometry s')) s').

(** The operations a caller can invoke, and what each one returns. *)
Inductive Op : Type :=
| RestrictEnergy (lo hi : Q)
| SetDistance (d : Q)
| SetAngle (a : Q)
| SetSurfaceDistance (d : Q)
| EnableGreenTensor (b : bool)
| BuildInteraction
| Diagonalize (tolerance : Q)
| GetEigenvalues
| GetOverlap (reference : StateTwo) (angles : Q * Q * Q).

Inductive Value : Type :=
| Unit
| Numbers (l : list Q).

Definition run (op : Op) : M System Value :=
  match op with
  | RestrictEnergy lo hi => restrictEnergy lo hi;; mret Unit
  | SetDistance d => setDistance d;; mret Unit
  | SetAngle a => setAngle a;; mret Unit
  | SetSurfaceDistance d => setSurfaceDistance d;; mret Unit
  | EnableGreenTensor b => enableGreenTensor b;; mret Unit
  | BuildInteraction => buildInteraction;; mret Unit
  | Diagonalize tolerance => diagonalize tolerance;; mret Unit
  | GetEigenvalues => Numbers <$> getEigenvalues
  | GetOverlap reference angles => Numbers <$> getOverlap reference angles
  end.

(** A caller's script: the operations in order, each on the state the
    previous one left, with what each returned. *)
Fixpoint run_all (ops : list Op) (s : System) : list (result Value) * System :=
  match ops with
  | [] => ([], s)
  | op :: ops' =>
      let '(r, s') := run op s in
      let '(rs, s'') := run_all ops' s' in
      (r :: rs, s'')
  end.


(** Modelled from the spec: the life cycle as the history of a System
    tells it: which stage has completed after an operation that
    succeeded or failed.  The Basis and the diagonal are complete from
    the construction on; a restriction leaves only these two; a change
    of geometry ends the validity of the eigen-decomposition and keeps
    the interaction stage; a failed operation completes nothing. *)
Definition lifecycle (st : Stage) (op : Op) (ok : bool) : Stage :=
  if ok then
    match op with
    | RestrictEnergy _ _ => DiagonalBuilt
    | SetDistance _ | SetAngle _ | SetSurfaceDistance _ | EnableGreenTensor _ =>
        stage_min st InteractionBuilt
    | BuildInteraction => InteractionBuilt
    | Diagonalize _ => Diagonalized
    | GetEigenvalues | GetOverlap _ _ => st
    end
  else st.


(** The states a System can be in: those reached from a fresh System by
    any sequence of operations, failed ones included. *)
Inductive reachable : System -> Prop :=
| reachable_create a b c : reachable (create a b c)
| reachable_run op s : reachable s -> reachable (snd (run op s)).

(** What every reachable System keeps: the operators have the dimension
    of the Basis, the interaction part is symmetric, and a valid
    eigen-decomposition belongs to an interaction part that is up to date. *)
Definition consistent (s : System) : Prop :=
  dim (diagonal s) = length (basis s)
  /\ (forall op, interaction s = Some op ->
        dim op = length (basis s) /\ forall i j, entry op i j = entry op j i)
  /\ (is_Some (eigen s) -> is_Some (interaction s) /\ stale s = false).

End System.
End SystemTwo.

(** ** Concrete collaborators for the examples *)

(** A stand-in for the C library: the Taylor polynomial [1 - x^2/2]. *)
Definition example_libm : Libm := {| cos x := (1 - x * x / 2)%Q |}.

(** Stand-in physics: a state does not couple to itself, every atomic
    element is the sum of the two principal quantum numbers, and the
    prefactor is [1/distance^3]. *)
Definition example_physics : OperatorAssembler.Physics Q :=
  {| OperatorAssembler.couples _ a b := negb (bool_decide (a = b));
     OperatorAssembler.compute_element k :=
       match k with
       | (_, StateOne_qn _ n _ _ _, StateOne_qn _ n' _ _ _) => inject_Z (n + n')
       | _ => 1%Q
       end;
     OperatorAssembler.combine g _ _ _ e1 e2 :=
       (e1 * e2 / (distance g * distance g * distance g))%Q |}.


(** A stand-in eigensolver, exact for a vanishing interaction: it returns
    the diagonal entries, and the overlap of the reference state with the
    eigenstate of index [k] is 1 where the reference state is the [k]-th
    state of the Basis and 0 elsewhere. *)
Definition example_numerics : Numerics Q :=
  {| solve d _ _ := Ok ((fun i => entry d i i) <$> seq 0 (dim d), []);
     overlap basis _ reference _ :=
       (fun s => if bool_decide (s = reference) then 1%Q else 0%Q) <$> basis |}.

Definition example_basis : list StateTwo :=
  [StateTwo_states (StateOne_qn "Rb" 69 0 1 1) (StateOne_qn "Rb" 72 0 1 1);
   StateTwo_states (StateOne_qn "Rb" 70 1 3 1) (StateOne_qn "Rb" 71 1 3 1)].

(** Atoms 10 apart along the surface normal, the centre of mass 20 above
    the surface, surface term enabled. *)
Definition example_geometry : Geometry :=
  {| distance := 10; angle := 0; surface_distance := 20; green_tensor := true |}.

(** A fresh pair System, and the same System after the surface term was
    configured and enabled. *)
Definition example_system : SystemTwo.System (Sc := Q) :=
  @SystemTwo.create Q pireal hydrogenic
    [StateOne_qn "Rb" 69 0 1 1; StateOne_qn "Rb" 70 1 3 1]
    [StateOne_qn "Rb" 72 0 1 1] MatrixElementCache.empty.

Definition example_configured : SystemTwo.System (Sc := Q) :=
  snd (@SystemTwo.run_all Q pireal hydrogenic example_libm example_physics example_numerics
         [SystemTwo.SetAngle 0; SystemTwo.SetDistance 10; SystemTwo.SetSurfaceDistance 20;
          SystemTwo.EnableGreenTensor true] example_system).



(** A cache of integers that holds 5 under the key 7. *)
Definition example_cache : MatrixElementCache.cache nat Z :=
  MatrixElementCache.put 7%nat 5%Z MatrixElementCache.empty.

(** ** doc/sphinx/CMakeLists.txt: the names of the notebook tests *)

Module CMake.

(** [[^.]*$]: no dot up to the end of the text. *)
Fixpoint no_dot (s : string) : bool :=
  match s with
  | EmptyString => true
  | String c rest => negb (Ascii.eqb c ".") && no_dot rest
  end.

(** [string(REGEX REPLACE "\\.[^.]*$" "" ...)] on its input: the text is
    scanned from the left; where a dot is followed by dot-free text up to
    the end, the match is replaced by the empty replacement. *)
Fixpoint regex_replace_extension (input : string) : string :=
  match input with
  | EmptyString => EmptyString
  | String c rest =>
      if Ascii.eqb c "." && no_dot rest then EmptyString
      else String c (regex_replace_extension rest)
  end.

Definition is_empty (s : string) : bool :=
  match s with EmptyString => true | String _ _ => false end.

Definition push (element : string) (c : ascii) : string :=
  element +:+ String c EmptyString.

(** An element that is empty is not passed on. *)
Definition close (element : string) (rest : list string) : list string :=
  if is_empty element then rest else element :: rest.

(** How CMake divides a value into the elements of a list: at every [;]
    that is not nested in square brackets and not preceded by a
    backslash; a backslash before a [;] is dropped and the [;] kept. *)
Fixpoint divide (nesting : Z) (element value : string) : list string :=
  match value with
  | EmptyString => close element []
  | String c rest =>
      if Ascii.eqb c "\" then
        match rest with
        | String c' rest' =>
            if Ascii.eqb c' ";" then divide nesting (push element ";") rest'
            else divide nesting (push element c) rest
        | EmptyString => divide nesting (push element c) rest
        end
      else if Ascii.eqb c "[" then divide (nesting + 1) (push element c) rest
      else if Ascii.eqb c "]" then divide (nesting - 1) (push element c) rest
      else if Ascii.eqb c ";" then
        if (nesting =? 0)%Z then close element (divide nesting EmptyString rest)
        else divide nesting (push element c) rest
      else divide nesting (push element c) rest
  end.

(** An unquoted argument such as [${file}] or [${NOTEBOOKS}]: the value of
    the variable is divided as a list, and each non-empty element is one
    argument of the command. *)
Definition expand_unquoted (value : string) : list string :=
  divide 0 EmptyString value.

Fixpoint no_semicolon (s : string) : bool :=
  match s with
  | EmptyString => true
  | String c rest => negb (Ascii.eqb c ";") && no_semicolon rest
  end.

(** [set(NOTEBOOKS "introduction.ipynb" ...)]: the values are joined with
    [;]; [list(APPEND NOTEBOOKS "wavefunctions.ipynb")] adds one more. *)
Definition set_list (values : list string) : string := String.concat ";" values.

Definition list_APPEND (value item : string) : string :=
  if is_empty value then item else value +:+ ";" +:+ item.

Definition NOTEBOOKS (WITH_GSL : bool) : string :=
  let tested :=
    set_list ["introduction.ipynb"; "matrix_elements.ipynb"; "vdw_near_surface.ipynb"] in
  if WITH_GSL then list_APPEND tested "wavefunctions.ipynb" else tested.

(** [string(REGEX REPLACE "\\.[^.]*$" "" NOTEBOOK_NAME ${file})]: [${file}]
    is not quoted, so the command receives the elements of its value as
    its inputs and concatenates them before matching; without any input
    the command is an error. *)
Definition NOTEBOOK_NAME (file : string) : option string :=
  match expand_unquoted file with
  | [] => None
  | inputs => Some (regex_replace_extension (String.concat EmptyString inputs))
  end.

(** [add_test(NAME "notebook.${NOTEBOOK_NAME}" ...)] *)
Definition test_name (file : string) : option string :=
  (fun name => "notebook." +:+ name) <$> NOTEBOOK_NAME file.

(** [foreach(file ${NOTEBOOKS}) ... endforeach()]: the names of the tests
    that are added. *)
Definition notebook_tests (WITH_GSL : bool) : list (option string) :=
  test_name <$> expand_unquoted (NOTEBOOKS WITH_GSL).

End CMake.

(** ** The notebooks of doc/sphinx/examples_python *)

Module Notebook.

(** [restrictN(min(a, b) - margin, max(a, b) + margin)], and the same for
    [restrictL]: the window the notebooks ask for around the quantum
    numbers [a] and [b] of the two seed states (Python integers). *)
Definition window_around (a b margin : Z) : Z * Z :=
  (Z.min a b - margin, Z.max a b + margin)%Z.

Definition inside (w : Z * Z) (x : Z) : Prop := (fst w <= x <= snd w)%Z.

(** vdw_near_surface.ipynb: n within 3, l within 1. *)
Definition vdw_n_window (n1 n2 : Z) : Z * Z := window_around n1 n2 3.
Definition vdw_l_window (l1 l2 : Z) : Z * Z := window_around l1 l2 1.

(** pair_potential_near_surface.ipynb: n within 2, l within 2. *)
Definition pair_potential_n_window (n1 n2 : Z) : Z * Z := window_around n1 n2 2.
Definition pair_potential_l_window (l1 l2 : Z) : Z * Z := window_around l1 l2 2.

(** [np.linspace(start, stop, num)]: [num] evenly spaced samples,
    [arange(num) * step + start] with [step = (stop - start) / (num - 1)],
    the last one set to [stop]. *)
Definition linspace (start stop : Q) (num : nat) : list Q :=
  match num with
  | O => []
  | S O => [start]
  | S (S _ as div) =>
      let step := ((stop - start) / inject_Z (Z.of_nat div))%Q in
      ((fun i => inject_Z (Z.of_nat i) * step + start)%Q <$> seq 0 div) ++ [stop]
  end.

(** vdw_near_surface.ipynb:
    [distance_surface = np.linspace(distance_atoms*np.abs(np.cos(theta))/2,
                                    2*distance_atoms, 30)] *)
Definition distance_surface `{Libm} (theta distance_atoms : Q) : list Q :=
  linspace (distance_atoms * Qabs (cos theta) / 2)%Q (2 * distance_atoms)%Q 30.

(** [itertools.product(xs, ys)]: the pairs with the right component
    advancing fastest. *)
Definition product {A B : Type} (xs : list A) (ys : list B) : list (A * B) :=
  x ← xs; y ← ys; [(x, y)].

(** [np.repeat(a, n)]: every element [n] times in a row. *)
Definition np_repeat {A : Type} (a : list A) (n : nat) : list A :=
  x ← a; replicate n x.

(** [np.array(rows)] for a list of one-dimensional arrays of one common
    length: the shape and the data in row order; rows of different lengths
    give no rectangular array. *)
Definition np_array (rows : list (list Q)) : option (nat * nat * list Q) :=
  match rows with
  | [] => Some (0, 0, [])
  | row :: _ =>
      if forallb (fun r => Nat.eqb (length r) (length row)) rows
      then Some (length rows, length row, concat rows)
      else None
  end.

(** [a.reshape(2, -1)]: two rows of half the size each; an odd size has
    no such shape. *)
Definition reshape_2 (a : nat * nat * list Q) : option (list (list Q)) :=
  let '(_, _, flat) := a in
  if Nat.even (length flat)
  then Some [take (length flat / 2) flat; drop (length flat / 2) flat]
  else None.

(** pair_potential_near_surface.ipynb, the cell that sweeps the distances:
    [energies = list(map(getDiagonalizedSystems,
                         product([1e12, distance_surface], distance_atom)))]
    [y = np.array(energies).reshape(2, -1) - energyzero]
    [x = np.repeat(distance_atom, system_two.getNumBasisvectors())]
    [getDiagonalizedSystems] sets both distances, diagonalizes and returns
    the diagonal of the Hamiltonian; it is taken as the array it returns
    for a pair (surface distance, interatomic distance). *)
Section Sweep.
Variable getDiagonalizedSystems : Q * Q -> list Q.
Variable getNumBasisvectors : nat.
Variables (distance_surface1 energyzero : Q) (distance_atom : list Q).

Definition free_space : Q := inject_Z (10 ^ 12).

Definition energies : list (list Q) :=
  getDiagonalizedSystems <$> product [free_space; distance_surface1] distance_atom.

Definition sweep_y : option (list (list Q)) :=
  match np_array energies ≫= reshape_2 with
  | Some rows => Some (map (map (fun e => e - energyzero)%Q) rows)
  | None => None
  end.

Definition sweep_x : list Q := np_repeat distance_atom getNumBasisvectors.

End Sweep.

(** The two Python exceptions the loop of vdw_near_surface.ipynb can meet. *)
Inductive PyError : Type :=
| ValueError
| IndexError.

(** [np.argmax(a)]: the index of the first occurrence of the maximum; an
    empty array raises [ValueError]. *)
Fixpoint argmax_from (best_index : nat) (best : Q) (i : nat) (a : list Q) : nat :=
  match a with
  | [] => best_index
  | x :: a' =>
      if Qltb best x then argmax_from i x (S i) a'
      else argmax_from best_index best (S i) a'
  end.

Definition np_argmax (a : list Q) : PyError + nat :=
  match a with
  | [] => inl ValueError
  | x :: a' => inr (argmax_from 0 x 1 a')
  end.

(** vdw_near_surface.ipynb, the body of the loop after the diagonalization:
    [idx = np.argmax(system_two.getOverlap(state_two, 0, -theta, 0))]
    [energyshift = system_two.getHamiltonian().diagonal()[idx]-state_two.getEnergy()]
    [C6.append(energyshift*distance_atoms**6)]
    for the overlap vector and the diagonal the System returned. *)
Definition c6_coefficient (overlap diagonal : list Q) (state_energy distance_atoms : Q)
  : PyError + Q :=
  match np_argmax overlap with
  | inl e => inl e
  | inr idx =>
      match diagonal !! idx with
      | Some e => inr ((e - state_energy) * distance_atoms ^ 6)%Q
      | None => inl IndexError
      end
  end.

End Notebook.

(** ** Facts about SystemBase.cpp *)

Section StringFacts.

Lemma substring_all (s : string) : substring 0 (String.length s) s = s.
Proof. induction s as [|c s IH]; simpl; [reflexivity | now rewrite IH]. Qed.

End StringFacts.

(** C9: on the single-atom System the label reaches the label resolution
    unchanged: the result is the state constructed directly from [s], and
    the label it was seeded with is [s] itself. *)
Theorem createStateFromLabel_StateOne_direct (s : string) :
  createStateFromLabel (T := StateOne) s = StateOne_label s
  /\ getLabel (createStateFromLabel (T := StateOne) s) = Some s.
Proof. split; reflexivity. Qed.

(** C10: the pair state is seeded from exactly the two labels ["0_" + s]
    and ["1_" + s]; both have [s] as their suffix (everything behind the
    two-character prefix) and they differ only in that prefix, ["0_"] for
    the first atom and ["1_"] for the second. *)
Theorem createStateFromLabel_StateTwo_labels (s : string) :
  exists a b : string,
    createStateFromLabel (T := StateTwo) s = StateTwo_labels (a, b)
    /\ getLabel (first (createStateFromLabel (T := StateTwo) s)) = Some a
    /\ getLabel (second (createStateFromLabel (T := StateTwo) s)) = Some b
    /\ a = "0_" +:+ s /\ b = "1_" +:+ s
    /\ substring 0 2 a = "0_" /\ substring 0 2 b = "1_"
    /\ substring 2 (String.length s) a = s
    /\ substring 2 (String.length s) b = s
    /\ String.length a = (2 + String.length s)%nat
    /\ String.length b = (2 + String.length s)%nat
    /\ a <> b.
Proof.
  exists ("0_" +:+ s), ("1_" +:+ s).
  repeat split; try reflexivity.
  - destruct s; reflexivity.
  - destruct s; reflexivity.
  - simpl. apply substring_all.
  - simpl. apply substring_all.
  - discriminate.
Qed.

(** C1, as the specification words it: the two labels would carry the
    atom indices 1 and 2.  The code numbers the atoms from 0: for the label
    ["Rb"] the first component is seeded with ["0_Rb"], whose index is 0. *)
Lemma createStateFromLabel_StateTwo_not_one_based :
  ~ seeded_with_indices 1 2 "Rb" (createStateFromLabel (T := StateTwo) "Rb").
Proof. intros [Hfirst _]. vm_compute in Hfirst. discriminate. Qed.

(** C1, amended: for every label [s] the pair state is seeded by two labels
    derived from [s] that carry the 0-based atom indices 0 and 1, and both
    single-atom seeds stem from the same label [s]. *)
Theorem createStateFromLabel_StateTwo_zero_based (s : string) :
  seeded_with_indices 0 1 s (createStateFromLabel (T := StateTwo) s).
Proof. repeat split. Qed.

(** ** Facts about the matrix element cache *)

Section CacheFacts.
Context {K : Type} `{Countable K} {V : Type}.
Implicit Types (c : MatrixElementCache.cache K V) (k : K) (v : V).

Lemma get_put_absent c k v :
  MatrixElementCache.get k c = None ->
  MatrixElementCache.get k (MatrixElementCache.put k v c) = Some v.
Proof.
  intros Hnone. unfold MatrixElementCache.put. rewrite Hnone.
  unfold MatrixElementCache.get. simpl. now rewrite lookup_insert_eq.
Qed.

Lemma put_present c k v v' :
  MatrixElementCache.get k c = Some v' -> MatrixElementCache.put k v c = c.
Proof. intros Hsome. unfold MatrixElementCache.put. now rewrite Hsome. Qed.

Lemma get_put_other c k k' v :
  k <> k' ->
  MatrixElementCache.get k' (MatrixElementCache.put k v c) = MatrixElementCache.get k' c.
Proof.
  intros Hne. unfold MatrixElementCache.put.
  destruct (MatrixElementCache.get k c) eqn:Hget; [reflexivity|].
  unfold MatrixElementCache.get. simpl.
  rewrite lookup_insert_ne by assumption.
  destruct (MatrixElementCache.memory c !! k'); [reflexivity|].
  destruct (MatrixElementCache.disk c); simpl; [|reflexivity].
  now rewrite lookup_insert_ne.
Qed.

Lemma get_put_keeps c k k' v v' :
  MatrixElementCache.get k' c = Some v' ->
  MatrixElementCache.get k' (MatrixElementCache.put k v c) = Some v'.
Proof.
  intros Hsome. destruct (decide (k = k')) as [->|Hne].
  - now rewrite (put_present _ _ _ _ Hsome).
  - now rewrite get_put_other.
Qed.

Lemma get_put c k v :
  MatrixElementCache.get k (MatrixElementCache.put k v c)
  = Some (default v (MatrixElementCache.get k c)).
Proof.
  destruct (MatrixElementCache.get k c) as [v'|] eqn:Hget; simpl.
  - now rewrite (put_present _ _ _ _ Hget).
  - now apply get_put_absent.
Qed.

Lemma put_then_get_same c k v :
  (forall v', MatrixElementCache.get k c = Some v' -> v' = v) ->
  MatrixElementCache.get k (MatrixElementCache.put k v c) = Some v.
Proof.
  intros Hsame. rewrite get_put.
  destruct (MatrixElementCache.get k c) as [v'|] eqn:Hget; simpl; [|reflexivity].
  now rewrite (Hsame v' eq_refl).
Qed.

(** C3: in a cache that holds no other value under [k] (a key always
    computes to the same value and the cache has no update), [put(k, v)]
    followed by [get(k)] returns [v]; for a key already present a second
    put with the equal value is a no-op; and whatever value a put offers
    for a present key, the stored value is never replaced. *)
Theorem cache_put_then_get c k v :
  (forall v', MatrixElementCache.get k c = Some v' -> v' = v) ->
  MatrixElementCache.get k (MatrixElementCache.put k v c) = Some v
  /\ (MatrixElementCache.get k c = Some v -> MatrixElementCache.put k v c = c)
  /\ (forall w v0, MatrixElementCache.get k c = Some v0 ->
        MatrixElementCache.put k w c = c
        /\ MatrixElementCache.get k (MatrixElementCache.put k w c) = Some v0).
Proof.
  intros Hsame. split; [|split].
  - now apply put_then_get_same.
  - intros Hsome. exact (put_present _ _ _ _ Hsome).
  - intros w v0 Hsome. rewrite (put_present _ _ w _ Hsome). auto.
Qed.

(** Caches filled with computed values only: the empty cache is one, and
    putting or fetching a computed value keeps it one, so the round trip
    above applies to every key at every moment. *)
Lemma valued_by_empty (compute : K -> V) :
  MatrixElementCache.valued_by compute MatrixElementCache.empty.
Proof. intros k v Hget. unfold MatrixElementCache.get in Hget. simpl in Hget.
  rewrite !lookup_empty in Hget. discriminate.
Qed.

Lemma valued_by_put (compute : K -> V) c k :
  MatrixElementCache.valued_by compute c ->
  MatrixElementCache.valued_by compute (MatrixElementCache.put k (compute k) c).
Proof.
  intros Hc k' v. destruct (decide (k = k')) as [<-|Hne].
  - rewrite get_put. destruct (MatrixElementCache.get k c) as [v'|] eqn:Hget; simpl.
    + intros [= <-]. now apply Hc.
    + now intros [= <-].
  - rewrite get_put_other by assumption. apply Hc.
Qed.

Lemma valued_by_round_trip (compute : K -> V) c k :
  MatrixElementCache.valued_by compute c ->
  MatrixElementCache.get k (MatrixElementCache.put k (compute k) c) = Some (compute k).
Proof.
  intros Hc. apply put_then_get_same. intros v' Hget. now apply Hc.
Qed.

End CacheFacts.

(** At most once: after [put(k, 1)], [put(k, 2)] changes nothing and
    [get(k)] still returns 1. *)
Example put_keeps_first_value :
  let k : OperatorAssembler.Key :=
    (DipoleDipole, StateOne_qn "Rb" 69 0 1 1, StateOne_qn "Rb" 70 1 1 1) in
  let c := MatrixElementCache.put k 1%Q MatrixElementCache.empty in
  MatrixElementCache.get k (MatrixElementCache.put k 2%Q c) = Some 1%Q.
Proof.
  intros k c. rewrite get_put. unfold c. rewrite get_put. reflexivity.
Qed.

Lemma cache_put_then_get_witness :
  MatrixElementCache.get 7%nat (MatrixElementCache.put 7%nat 5%Z example_cache) = Some 5%Z
  /\ (MatrixElementCache.get 7%nat example_cache = Some 5%Z ->
      MatrixElementCache.put 7%nat 5%Z example_cache = example_cache)
  /\ (forall w v0, MatrixElementCache.get 7%nat example_cache = Some v0 ->
        MatrixElementCache.put 7%nat w example_cache = example_cache
        /\ MatrixElementCache.get 7%nat (MatrixElementCache.put 7%nat w example_cache)
           = Some v0).
Proof.
  apply (cache_put_then_get example_cache 7%nat 5%Z).
  intros v' Hget. vm_compute in Hget. now injection Hget as <-.
Defined.

(** ** Facts about the basis builder *)

Section BasisFacts.
Context `{AtomicData}.
Import BasisBuilder.

Lemma elem_of_window_values (w : Z * Z) (x : Z) :
  x ∈ window_values w <-> (fst w <= x <= snd w)%Z.
Proof. unfold window_values. rewrite elem_of_seqZ. lia. Qed.

Lemma elem_of_m_values (j2 m2 : Z) :
  m2 ∈ m_values j2 <-> (- j2 <= m2 <= j2)%Z /\ (exists k : Z, m2 = 2 * k - j2)%Z.
Proof.
  unfold m_values. rewrite list_elem_of_fmap. split.
  - intros (k & -> & Hk). apply elem_of_seqZ in Hk. split; [lia | now exists k].
  - intros (Hrange & k & ->). exists k. split; [reflexivity|].
    apply elem_of_seqZ. lia.
Qed.

Lemma elem_of_enumerate (species : string) (nw lw : Z * Z) (s : StateOne) :
  s ∈ enumerate species nw lw <-> candidate species nw lw s.
Proof.
  unfold enumerate, candidate. split.
  - intros Hin.
    apply list_elem_of_bind in Hin as (n & Hin & Hn).
    apply list_elem_of_bind in Hin as (l & Hin & Hl).
    apply elem_of_window_values in Hn, Hl.
    destruct ((0 <=? l)%Z && (l <? n)%Z) eqn:Hvalid; [|now apply elem_of_nil in Hin].
    apply list_elem_of_bind in Hin as (j2 & Hin & Hj).
    apply list_elem_of_bind in Hin as (m2 & Hin & Hm).
    apply list_elem_of_singleton in Hin. apply elem_of_m_values in Hm as [Hm Hk].
    exists n, l, j2, m2. repeat split; try tauto; try lia.
  - intros (n & l & j2 & m2 & -> & Hn & Hl & Hvalid & Hj & Hm & Hk).
    apply list_elem_of_bind. exists n. split; [|now apply elem_of_window_values].
    apply list_elem_of_bind. exists l. split; [|now apply elem_of_window_values].
    replace ((0 <=? l)%Z && (l <? n)%Z) with true by (symmetry; apply andb_true_iff; lia).
    apply list_elem_of_bind. exists j2. split; [|assumption].
    apply list_elem_of_bind. exists m2. split; [|now apply elem_of_m_values].
    now apply list_elem_of_singleton.
Qed.

(** What the window predicates decide. *)
Lemma in_window_bounds (lo hi : Z) (x : option Z) :
  in_window (Some (lo, hi)) x = true <-> exists v : Z, x = Some v /\ (lo <= v <= hi)%Z.
Proof.
  destruct x as [v|]; simpl.
  - rewrite andb_true_iff, !Z.leb_le. split.
    + intros Hv. now exists v.
    + now intros (v' & [= <-] & Hv).
  - split; [discriminate | now intros (v & Hv & _)].
Qed.

Lemma in_energy_window_bounds (lo hi e : Q) :
  in_energy_window (Some (lo, hi)) e = true <-> (lo <= e)%Q /\ (e <= hi)%Q.
Proof. simpl. now rewrite andb_true_iff, !Qle_bool_iff. Qed.

Lemma satisfies_iff (r : Restrictions) (s : StateOne) :
  satisfies r s = true <->
  in_energy_window (energy_window r) (energy s) = true
  /\ in_window (n_window r) (getN s) = true
  /\ in_window (l_window r) (getL s) = true
  /\ in_window (j_window r) (getJ2 s) = true
  /\ in_window (m_window r) (getM2 s) = true.
Proof.
  unfold satisfies, satisfies_numbers, satisfies_energy.
  rewrite !andb_true_iff. tauto.
Qed.

Lemma elem_of_buildSingleAtomBasis (species : string) (r : Restrictions)
  (nw lw : Z * Z) (s : StateOne) :
  n_window r = Some nw -> l_window r = Some lw ->
  forall b, buildSingleAtomBasis species r = Some b ->
  s ∈ b <-> candidate species nw lw s /\ satisfies r s = true.
Proof.
  intros Hn Hl b Hb. unfold buildSingleAtomBasis in Hb. rewrite Hn, Hl in Hb.
  injection Hb as <-.
  rewrite merge_sort_Permutation, elem_of_remove_dups, !list_elem_of_filter.
  rewrite elem_of_enumerate. unfold satisfies. rewrite andb_true_iff. tauto.
Qed.

(** The basis has no duplicates and is ordered by energy. *)
Lemma buildSingleAtomBasis_NoDup (species : string) (r : Restrictions) (b : list StateOne) :
  buildSingleAtomBasis species r = Some b -> NoDup b.
Proof.
  unfold buildSingleAtomBasis.
  destruct (n_window r); [|discriminate]. destruct (l_window r); [|discriminate].
  intros [= <-]. rewrite merge_sort_Permutation. apply NoDup_remove_dups.
Qed.

(** C5: with the (mandatory) n and l windows in place the builder returns
    a Basis; every state in it satisfies every active predicate, that is
    the energy, n, l, j and m windows together, and every candidate of the
    enumerated range that lies in the energy window and in the n, l, j
    and m windows is in it. *)
Theorem buildSingleAtomBasis_sound_complete (species : string) (r : Restrictions)
  (nw lw : Z * Z) :
  n_window r = Some nw -> l_window r = Some lw ->
  exists b : list StateOne,
    buildSingleAtomBasis species r = Some b
    /\ (forall s, s ∈ b ->
          in_energy_window (energy_window r) (energy s) = true
          /\ in_window (n_window r) (getN s) = true
          /\ in_window (l_window r) (getL s) = true
          /\ in_window (j_window r) (getJ2 s) = true
          /\ in_window (m_window r) (getM2 s) = true)
    /\ (forall s, candidate species nw lw s ->
          in_energy_window (energy_window r) (energy s) = true ->
          in_window (n_window r) (getN s) = true ->
          in_window (l_window r) (getL s) = true ->
          in_window (j_window r) (getJ2 s) = true ->
          in_window (m_window r) (getM2 s) = true ->
          s ∈ b).
Proof.
  intros Hn Hl.
  destruct (buildSingleAtomBasis species r) as [b|] eqn:Hb.
  - exists b. split; [reflexivity|]. split.
    + intros s Hs. apply satisfies_iff.
      now apply (elem_of_buildSingleAtomBasis species r nw lw s Hn Hl b Hb).
    + intros s Hcand He Hwn Hwl Hwj Hwm.
      apply (elem_of_buildSingleAtomBasis species r nw lw s Hn Hl b Hb).
      split; [assumption|]. apply satisfies_iff. auto.
  - unfold buildSingleAtomBasis in Hb. now rewrite Hn, Hl in Hb.
Qed.

(** The pair basis: the product of the two bases inside the pair energy window. *)
Lemma elem_of_buildPairBasis (basisA basisB : list StateOne) (w : option (Q * Q))
  (s : StateTwo) :
  s ∈ buildPairBasis basisA basisB w <->
  first s ∈ basisA /\ second s ∈ basisB /\ in_energy_window w (pair_energy s) = true.
Proof.
  unfold buildPairBasis.
  rewrite merge_sort_Permutation, elem_of_remove_dups, list_elem_of_filter, list_elem_of_bind.
  split.
  - intros (Hw & a & Hin & Ha). apply list_elem_of_bind in Hin as (b & Hin & Hb).
    apply list_elem_of_singleton in Hin as ->. simpl. auto.
  - intros (Ha & Hb & Hw). split; [assumption|]. exists (first s). split; [|assumption].
    apply list_elem_of_bind. exists (second s). split; [|assumption].
    apply list_elem_of_singleton. now destruct s.
Qed.

End BasisFacts.

Lemma buildSingleAtomBasis_sound_complete_witness :
  exists b : list StateOne,
    @BasisBuilder.buildSingleAtomBasis hydrogenic "Rb" example_restrictions = Some b
    /\ (forall s, s ∈ b ->
          BasisBuilder.in_energy_window None (@energy hydrogenic s) = true
          /\ BasisBuilder.in_window (Some (2, 3)%Z) (BasisBuilder.getN s) = true
          /\ BasisBuilder.in_window (Some (0, 1)%Z) (BasisBuilder.getL s) = true
          /\ BasisBuilder.in_window None (BasisBuilder.getJ2 s) = true
          /\ BasisBuilder.in_window (Some (1, 1)%Z) (BasisBuilder.getM2 s) = true)
    /\ (forall s, @BasisBuilder.candidate hydrogenic "Rb" (2, 3)%Z (0, 1)%Z s ->
          BasisBuilder.in_energy_window None (@energy hydrogenic s) = true ->
          BasisBuilder.in_window (Some (2, 3)%Z) (BasisBuilder.getN s) = true ->
          BasisBuilder.in_window (Some (0, 1)%Z) (BasisBuilder.getL s) = true ->
          BasisBuilder.in_window None (BasisBuilder.getJ2 s) = true ->
          BasisBuilder.in_window (Some (1, 1)%Z) (BasisBuilder.getM2 s) = true ->
          s ∈ b).
Proof.
  apply (@buildSingleAtomBasis_sound_complete hydrogenic "Rb" example_restrictions
           (2, 3)%Z (0, 1)%Z); reflexivity.
Defined.

(** The example evaluated: six states, ordered by energy. *)
Example buildSingleAtomBasis_example :
  @BasisBuilder.buildSingleAtomBasis hydrogenic "Rb" example_restrictions
  = Some [StateOne_qn "Rb" 2 0 1 1; StateOne_qn "Rb" 2 1 1 1; StateOne_qn "Rb" 2 1 3 1;
          StateOne_qn "Rb" 3 1 1 1; StateOne_qn "Rb" 3 1 3 1; StateOne_qn "Rb" 3 0 1 1].
Proof. vm_compute. reflexivity. Qed.

(** ** Facts about the operator assembler *)

Section MonadFacts.
Context {St : Type}.

Lemma bind_ok {A B} (m : M St A) (f : A -> M St B) st a st' :
  m st = (Ok a, st') -> (m ≫= f) st = f a st'.
Proof. intros Hm. unfold mbind, M_bind. now rewrite Hm. Qed.

Lemma bind_err {A B} (m : M St A) (f : A -> M St B) st e st' :
  m st = (Err e, st') -> (m ≫= f) st = (Err e, st').
Proof. intros Hm. unfold mbind, M_bind. now rewrite Hm. Qed.

End MonadFacts.

Section AssemblerFacts.
Context {Sc : Type} `{OperatorAssembler.Physics Sc}.
Import OperatorAssembler.
Implicit Types (c : MatrixElementCache.cache Key Sc) (m : gmap (nat * nat) Sc).

Lemma grown_from_refl c : grown_from c c.
Proof.
  split; [auto|]. intros k v Hget. unfold resolve. now rewrite Hget.
Qed.

Lemma fetch_grown c0 c k :
  grown_from c0 c ->
  exists c', MatrixElementCache.fetch compute_element k c = (Ok (resolve c0 k), c')
             /\ grown_from c0 c'.
Proof.
  intros [Hkeep Hval]. unfold MatrixElementCache.fetch.
  destruct (MatrixElementCache.get k c) as [v|] eqn:Hget.
  - exists c. rewrite (Hval k v Hget). split; [reflexivity | now split].
  - assert (Hfresh : MatrixElementCache.get k c0 = None).
    { destruct (MatrixElementCache.get k c0) as [v|] eqn:H0; [|reflexivity].
      apply Hkeep in H0. congruence. }
    exists (MatrixElementCache.put k (compute_element k) c).
    unfold resolve at 1. rewrite Hfresh. simpl. split; [reflexivity|]. split.
    + intros k' v Hk'. destruct (decide (k = k')) as [->|Hne]; [congruence|].
      rewrite get_put_other by assumption. now apply Hkeep.
    + intros k' v. destruct (decide (k = k')) as [<-|Hne].
      * rewrite get_put_absent by assumption. intros [= <-].
        unfold resolve. now rewrite Hfresh.
      * rewrite get_put_other by assumption. apply Hval.
Qed.

Lemma coupling_grown c0 c g a b :
  grown_from c0 c ->
  exists c', coupling g a b c = (Ok (coupling_value c0 g a b), c') /\ grown_from c0 c'.
Proof.
  intros Hc. unfold coupling.
  destruct (fetch_grown c0 c (operator_kind g, first a, first b) Hc) as (c1 & E1 & Hc1).
  destruct (fetch_grown c0 c1 (operator_kind g, second a, second b) Hc1) as (c2 & E2 & Hc2).
  exists c2. split; [|assumption].
  rewrite (bind_ok _ _ _ _ _ E1), (bind_ok _ _ _ _ _ E2). reflexivity.
Qed.

Lemma expected_entry_out_of_range c0 g (basis : list StateTwo) p q :
  length basis <= Nat.max p q -> expected_entry c0 g basis p q = None.
Proof.
  intros Hge. unfold expected_entry.
  rewrite (proj2 (lookup_ge_None basis (Nat.max p q)) Hge).
  now destruct (basis !! Nat.min p q).
Qed.

Lemma expected_entry_sym c0 g (basis : list StateTwo) p q :
  expected_entry c0 g basis p q = expected_entry c0 g basis q p.
Proof. unfold expected_entry. now rewrite (Nat.min_comm p q), (Nat.max_comm p q). Qed.

Lemma assembled_upto_mono c0 g (basis : list StateTwo) (done done' : nat -> nat -> Prop) m :
  assembled_upto c0 g basis done m ->
  (forall lo hi, lo <= hi -> done lo hi \/ ~ done lo hi) ->
  (forall lo hi, lo <= hi -> done lo hi -> done' lo hi) ->
  (forall lo hi, lo <= hi -> done' lo hi -> ~ done lo hi -> length basis <= hi) ->
  assembled_upto c0 g basis done' m.
Proof.
  intros Hm Hdec Hsub Hnew p q.
  assert (Hle : Nat.min p q <= Nat.max p q) by lia.
  destruct (Hm p q) as [Hdone Hnone]. split.
  - intros Hd'. destruct (Hdec _ _ Hle) as [Hd|Hnd]; [auto|].
    rewrite (Hnone Hnd). symmetry. apply expected_entry_out_of_range. eauto.
  - intros Hnd'. apply Hnone. intros Hd. apply Hnd'. eauto.
Qed.

Lemma assemble_pair_step c0 c g (basis : list StateTwo) i j m (done : nat -> nat -> Prop) :
  i <= j -> grown_from c0 c -> assembled_upto c0 g basis done m -> ~ done i j ->
  exists m' c',
    assemble_pair g basis i j m c = (Ok m', c')
    /\ grown_from c0 c'
    /\ assembled_upto c0 g basis (fun lo hi => done lo hi \/ (lo = i /\ hi = j)) m'.
Proof.
  intros Hij Hc Hm Hnew.
  assert (Hexp : forall p q, Nat.min p q = i -> Nat.max p q = j ->
            expected_entry c0 g basis p q = expected_entry c0 g basis i j).
  { intros p q Hmin Hmax. unfold expected_entry.
    rewrite Hmin, Hmax, Nat.min_l, Nat.max_r by assumption. reflexivity. }
  assert (Hskip : expected_entry c0 g basis i j = None ->
            assembled_upto c0 g basis (fun lo hi => done lo hi \/ (lo = i /\ hi = j)) m).
  { intros Hnone p q. destruct (Hm p q) as [Hdone Hrest]. split.
    - intros [Hd|[Hmin Hmax]]; [auto|].
      rewrite (Hexp p q Hmin Hmax), Hnone. apply Hrest. now rewrite Hmin, Hmax.
    - intros Hnd. apply Hrest. tauto. }
  unfold assemble_pair.
  destruct (basis !! i) as [a|] eqn:Ha; [destruct (basis !! j) as [b|] eqn:Hb|].
  - destruct (couples (operator_kind g) a b) eqn:Hcouples.
    + destruct (coupling_grown c0 c g a b Hc) as (c' & Hrun & Hc').
      exists (<[(j, i) := coupling_value c0 g a b]> (<[(i, j) := coupling_value c0 g a b]> m)), c'.
      split; [now rewrite (bind_ok _ _ _ _ _ Hrun)|]. split; [assumption|].
      assert (Hij_exp : expected_entry c0 g basis i j = Some (coupling_value c0 g a b)).
      { unfold expected_entry. rewrite Nat.min_l, Nat.max_r by assumption.
        now rewrite Ha, Hb, Hcouples. }
      intros p q. destruct (Hm p q) as [Hdone Hrest].
      destruct (decide (Nat.min p q = i /\ Nat.max p q = j)) as [[Hmin Hmax]|Hother].
      * assert (Hval : <[(j, i) := coupling_value c0 g a b]>
                         (<[(i, j) := coupling_value c0 g a b]> m) !! (p, q)
                       = Some (coupling_value c0 g a b)).
        { destruct (decide ((p, q) = (j, i))) as [->|Hne].
          - apply lookup_insert_eq.
          - rewrite lookup_insert_ne by congruence.
            assert (Heq : (p, q) = (i, j)).
            { destruct (Nat.le_ge_cases p q); [f_equal; lia|].
              exfalso. apply Hne. f_equal; lia. }
            rewrite Heq. apply lookup_insert_eq. }
        split; [intros _; now rewrite Hval, (Hexp p q Hmin Hmax)|tauto].
      * assert (Hne1 : (j, i) <> (p, q)) by (intros [= <- <-]; apply Hother; lia).
        assert (Hne2 : (i, j) <> (p, q)) by (intros [= <- <-]; apply Hother; lia).
        rewrite !lookup_insert_ne by assumption. split; [|tauto].
        intros [Hd|Hcls]; [auto | tauto].
    + exists m, c. split; [reflexivity|]. split; [assumption|]. apply Hskip.
      unfold expected_entry. rewrite Nat.min_l, Nat.max_r by assumption.
      now rewrite Ha, Hb, Hcouples.
  - exists m, c. split; [reflexivity|]. split; [assumption|]. apply Hskip.
    unfold expected_entry. rewrite Nat.min_l, Nat.max_r by assumption.
    now rewrite Ha, Hb.
  - exists m, c. split; [reflexivity|]. split; [assumption|]. apply Hskip.
    unfold expected_entry. rewrite Nat.min_l by assumption. now rewrite Ha.
Qed.

Lemma assemble_row_steps c0 g (basis : list StateTwo) i n :
  forall j0 c m,
    i <= j0 -> grown_from c0 c ->
    assembled_upto c0 g basis (fun lo hi => lo < i \/ (lo = i /\ hi < j0)) m ->
    exists m' c',
      foldM (assemble_pair g basis i) (seq j0 n) m c = (Ok m', c')
      /\ grown_from c0 c'
      /\ assembled_upto c0 g basis (fun lo hi => lo < i \/ (lo = i /\ hi < j0 + n)) m'.
Proof.
  induction n as [|n IH]; intros j0 c m Hij Hc Hm.
  - exists m, c. split; [reflexivity|]. split; [assumption|].
    apply (assembled_upto_mono _ _ _ _ _ _ Hm); intros; lia.
  - destruct (assemble_pair_step c0 c g basis i j0 m _ Hij Hc Hm) as (m1 & c1 & Hrun & Hc1 & Hm1);
      [lia|].
    destruct (IH (S j0) c1 m1) as (m' & c' & Hrest & Hc' & Hm'); [lia|assumption| |].
    { apply (assembled_upto_mono _ _ _ _ _ _ Hm1); intros; lia. }
    exists m', c'. split; [|split; [assumption|]].
    + simpl. now rewrite (bind_ok _ _ _ _ _ Hrun).
    + apply (assembled_upto_mono _ _ _ _ _ _ Hm'); intros; lia.
Qed.

Lemma assemble_rows c0 g (basis : list StateTwo) n :
  forall i0 c m,
    i0 + n <= length basis -> grown_from c0 c ->
    assembled_upto c0 g basis (fun lo _ => lo < i0) m ->
    exists m' c',
      foldM (assemble_row g basis) (seq i0 n) m c = (Ok m', c')
      /\ grown_from c0 c'
      /\ assembled_upto c0 g basis (fun lo _ => lo < i0 + n) m'.
Proof.
  induction n as [|n IH]; intros i0 c m Hlen Hc Hm.
  - exists m, c. split; [reflexivity|]. split; [assumption|].
    apply (assembled_upto_mono _ _ _ _ _ _ Hm); intros; lia.
  - destruct (assemble_row_steps c0 g basis i0 (length basis - i0) i0 c m)
      as (m1 & c1 & Hrun & Hc1 & Hm1); [lia|assumption| |].
    { apply (assembled_upto_mono _ _ _ _ _ _ Hm); intros; lia. }
    destruct (IH (S i0) c1 m1) as (m' & c' & Hrest & Hc' & Hm'); [lia|assumption| |].
    { apply (assembled_upto_mono _ _ _ _ _ _ Hm1); intros; lia. }
    exists m', c'. split; [|split; [assumption|]].
    + simpl. unfold assemble_row at 1. now rewrite (bind_ok _ _ _ _ _ Hrun).
    + apply (assembled_upto_mono _ _ _ _ _ _ Hm'); intros; lia.
Qed.

(** The assembly never fails; it leaves a cache grown from the one it
    started with and a matrix whose every entry is the expected one. *)
Lemma assemble_spec c0 g (basis : list StateTwo) :
  exists m c',
    assemble g basis c0 = (Ok m, c')
    /\ grown_from c0 c'
    /\ forall p q, m !! (p, q) = expected_entry c0 g basis p q.
Proof.
  destruct (assemble_rows c0 g basis (length basis) 0 c0 ∅) as (m & c' & Hrun & Hc' & Hm).
  - lia.
  - apply grown_from_refl.
  - intros p q. split; [lia | intros _; apply lookup_empty].
  - exists m, c'. split; [exact Hrun|]. split; [assumption|].
    intros p q. destruct (Hm p q) as [Hdone Hrest].
    destruct (decide (Nat.min p q < length basis)) as [Hlt|Hge].
    + apply Hdone. simpl. exact Hlt.
    + rewrite Hrest by (simpl; lia).
      symmetry. apply expected_entry_out_of_range. lia.
Qed.

Lemma buildInteraction_invalid `{Libm} c g (basis : list StateTwo) :
  invalid_geometry g = true ->
  buildInteraction basis g c = (Err GeometryError, c).
Proof.
  intros Hbad. unfold buildInteraction, check_geometry. rewrite Hbad. reflexivity.
Qed.

Lemma buildInteraction_valid `{Libm} c g (basis : list StateTwo) :
  invalid_geometry g = false ->
  exists m c',
    buildInteraction basis g c = (Ok {| dim := length basis; entries := m |}, c')
    /\ grown_from c c'
    /\ forall p q, m !! (p, q) = expected_entry c g basis p q.
Proof.
  intros Hgood. destruct (assemble_spec c g basis) as (m & c' & Hrun & Hc' & Hm).
  exists m, c'. split; [|now split].
  unfold buildInteraction, check_geometry. rewrite Hgood.
  unfold mbind, M_bind, mret, M_ret. now rewrite Hrun.
Qed.

End AssemblerFacts.

(** ** The interaction operator is Hermitian *)

Section HermitianFacts.
Import OperatorAssembler.

(** For any scalar type the assembled matrix is symmetric. *)
Lemma buildInteraction_symmetric {Sc : Type} `{Scalar Sc} `{Physics Sc} `{Libm}
  (basis : list StateTwo) (g : Geometry) (c c' : MatrixElementCache.cache Key Sc)
  (op : Operator Sc) :
  buildInteraction basis g c = (Ok op, c') ->
  dim op = length basis
  /\ (forall p q, entries op !! (p, q) = expected_entry c g basis p q)
  /\ (forall i j, entry op i j = entry op j i).
Proof.
  intros Hrun. destruct (invalid_geometry g) eqn:Hgeo.
  - rewrite (buildInteraction_invalid c g basis Hgeo) in Hrun. discriminate.
  - destruct (buildInteraction_valid c g basis Hgeo) as (m & c1 & Hrun' & _ & Hm).
    rewrite Hrun' in Hrun. injection Hrun as <- <-. simpl.
    split; [reflexivity|]. split; [exact Hm|].
    intros i j. unfold entry. simpl. now rewrite !Hm, expected_entry_sym.
Qed.


(** In the real-valued build conjugation is the identity, every coupling
    is its own conjugate and the operator is Hermitian without more ado. *)
Lemma self_conjugate_couplings_pireal `{Libm} `{Physics Q}
  (c : MatrixElementCache.cache Key Q) (g : Geometry) (basis : list StateTwo) :
  self_conjugate_couplings c g basis.
Proof. split; reflexivity. Qed.

Lemma buildInteraction_hermitian_pireal `{Libm} `{Physics Q} (basis : list StateTwo)
  (g : Geometry) (c c' : MatrixElementCache.cache Key Q) (op : Operator Q) :
  buildInteraction basis g c = (Ok op, c') ->
  forall i j, entry op i j = conjugate (entry op j i).
Proof.
  intros Hrun i j.
  destruct (buildInteraction_symmetric basis g c c' op Hrun) as (_ & _ & Hsym).
  simpl. apply Hsym.
Qed.

End HermitianFacts.



(** The example evaluated: the two pair states couple with
    [139 * 143 / 10^3], written into (0, 1) and (1, 0); the diagonal stays
    empty because a state does not couple to itself there. *)
Example buildInteraction_example :
  match fst (@OperatorAssembler.buildInteraction Q example_physics example_libm
               example_basis example_geometry MatrixElementCache.empty) with
  | Ok op => Some (dim op, map_to_list (entries op))
  | Err _ => None
  end = Some (2, [((0, 1), 19877 # 1000); ((1, 0), 19877 # 1000)]).
Proof. vm_compute. reflexivity. Qed.

(** ** Facts about the pair System *)

Section SystemFacts.
Context {Sc : Type} {scalar : Scalar Sc} {atomic : AtomicData} {libm : Libm}
  {physics : OperatorAssembler.Physics Sc} {numerics : Numerics Sc}.
Import SystemTwo.
Implicit Types (s : System (Sc := Sc)) (op : Op) (o : Operator Sc) (p : Stage).

Lemma Qltb_true (x y : Q) : (x < y)%Q -> Qltb x y = true.
Proof.
  intros Hlt. unfold Qltb. destruct (Qle_bool y x) eqn:Hle; [|reflexivity].
  apply Qle_bool_iff in Hle. exfalso. exact (Qlt_not_le _ _ Hlt Hle).
Qed.

(** C4: with the surface term enabled, setting a surface distance smaller
    than [distance*cos(angle)/2] raises [GeometryError]; the System is left
    exactly as it was: nothing is assembled, the cache is not consulted,
    and the stored surface distance is not replaced by a clamped value. *)
Theorem setSurfaceDistance_GeometryError s (d : Q) :
  green_tensor (geometry s) = true ->
  (d < distance (geometry s) * cos (angle (geometry s)) / 2)%Q ->
  setSurfaceDistance d s = (Err GeometryError, s).
Proof.
  intros Hgreen Hsmall.
  assert (Hbad : invalid_geometry (with_surface_distance d (geometry s)) = true).
  { unfold invalid_geometry, surface_bound. simpl. rewrite Hgreen. simpl.
    now apply Qltb_true. }
  unfold setSurfaceDistance, check_geometry, mbind, M_bind, read. now rewrite Hbad.
Qed.

Lemma assembleInteraction_invalid s :
  invalid_geometry (geometry s) = true ->
  assembleInteraction s = (Err GeometryError, s).
Proof.
  intros Hbad. unfold assembleInteraction, mbind, M_bind, read, lift.
  rewrite (buildInteraction_invalid (cache s) (geometry s) (basis s) Hbad).
  now destruct s.
Qed.

Lemma assembleInteraction_valid s :
  invalid_geometry (geometry s) = false ->
  exists o c',
    OperatorAssembler.buildInteraction (basis s) (geometry s) (cache s) = (Ok o, c')
    /\ assembleInteraction s = (Ok o, with_interaction o (with_cache c' s)).
Proof.
  intros Hgood.
  destruct (buildInteraction_valid (cache s) (geometry s) (basis s) Hgood)
    as (m & c' & Hrun & _).
  exists {| dim := length (basis s); entries := m |}, c'. split; [exact Hrun|].
  unfold assembleInteraction, mbind, M_bind, read, lift. now rewrite Hrun.
Qed.

(** The same configuration reached another way (the surface term enabled
    after the distance was set) is refused by [buildInteraction] before
    the assembly starts. *)
Lemma buildInteraction_GeometryError s :
  invalid_geometry (geometry s) = true ->
  buildInteraction s = (Err GeometryError, s).
Proof.
  intros Hbad. unfold buildInteraction.
  now rewrite (bind_err _ _ _ _ _ (assembleInteraction_invalid s Hbad)).
Qed.

Lemma create_consistent a b c : consistent (create a b c) /\ stage_of (create a b c) = DiagonalBuilt.
Proof.
  split; [|reflexivity]. split; [reflexivity|]. split.
  - intros o Ho. discriminate.
  - intros [e He]. discriminate.
Qed.

Lemma with_geometry_step s g :
  consistent s ->
  consistent (with_geometry g s)
  /\ stage_of (with_geometry g s) = stage_min (stage_of s) InteractionBuilt.
Proof.
  intros (Hdiag & Hint & Heig). split.
  - split; [exact Hdiag|]. split; [exact Hint|]. intros [e He]. discriminate.
  - unfold stage_of. simpl. destruct (eigen s) as [e|].
    + destruct Heig as [[o Ho] _]; [eauto|]. now rewrite Ho.
    + now destruct (interaction s).
Qed.

Lemma with_interaction_consistent s o c c' :
  consistent s ->
  OperatorAssembler.buildInteraction (basis s) (geometry s) c = (Ok o, c') ->
  consistent (with_interaction o (with_cache c' s)).
Proof.
  intros (Hdiag & _ & _) Hrun.
  destruct (buildInteraction_symmetric _ _ _ _ _ Hrun) as (Hdim & _ & Hsym).
  split; [exact Hdiag|]. split.
  - intros o' [= <-]. split; assumption.
  - intros [e He]. discriminate.
Qed.

(** [diagonalize] with its binds carried out. *)
Lemma diagonalize_unfold (tolerance : Q) s :
  diagonalize tolerance s
  = match interaction s with
    | None => (Err NotReadyError, s)
    | Some built =>
        match (if stale s then assembleInteraction s else (Ok built, s)) with
        | (Ok o, s') =>
            match solve (diagonal s) o tolerance with
            | Ok e => (Ok tt, with_eigen e s')
            | Err e => (Err e, s')
            end
        | (Err e, s') => (Err e, s')
        end
    end.
Proof.
  unfold diagonalize, mbind, M_bind, read.
  destruct (interaction s) as [built|]; [|reflexivity].
  destruct (stale s).
  - destruct (assembleInteraction s) as [[o|e] s']; [|reflexivity].
    now destruct (solve (diagonal s) o tolerance).
  - unfold mret, M_ret. now destruct (solve (diagonal s) built tolerance).
Qed.

Lemma run_Diagonalize (tolerance : Q) s :
  run (Diagonalize tolerance) s
  = match diagonalize tolerance s with
    | (Ok _, s') => (Ok Unit, s')
    | (Err e, s') => (Err e, s')
    end.
Proof.
  unfold run, mbind, M_bind. now destruct (diagonalize tolerance s) as [[[]|e] s'].
Qed.

(** One operation: the System stays consistent, and the stage it holds
    afterwards is the one the life cycle tells from the stage before, the
    operation and whether it succeeded. *)
Lemma run_step s op :
  consistent s ->
  consistent (snd (run op s))
  /\ stage_of (snd (run op s)) = lifecycle (stage_of s) op (is_ok (fst (run op s))).
Proof.
  intros Hs. pose proof Hs as (Hdiag & Hint & Heig).
  destruct op; [unfold run .. | rewrite run_Diagonalize | unfold run | unfold run].
  - unfold restrictEnergy, modify, mbind, M_bind, mret, M_ret. simpl. split; [|reflexivity].
    split; [reflexivity|]. split; [intros o Ho; discriminate | intros [e He]; discriminate].
  - unfold setDistance, modify, mbind, M_bind, mret, M_ret. simpl.
    now apply with_geometry_step.
  - unfold setAngle, modify, mbind, M_bind, mret, M_ret. simpl.
    now apply with_geometry_step.
  - unfold setSurfaceDistance, check_geometry, modify, throw, read, mbind, M_bind, mret, M_ret.
    destruct (invalid_geometry (with_surface_distance d (geometry s))); simpl.
    + split; [exact Hs | reflexivity].
    + now apply with_geometry_step.
  - unfold enableGreenTensor, modify, mbind, M_bind, mret, M_ret. simpl.
    now apply with_geometry_step.
  - unfold buildInteraction. destruct (invalid_geometry (geometry s)) eqn:Hgeo.
    + rewrite (bind_err _ _ _ _ _
                 (bind_err _ _ _ _ _ (assembleInteraction_invalid s Hgeo))).
      simpl. split; [exact Hs | reflexivity].
    + destruct (assembleInteraction_valid s Hgeo) as (built & c' & Hrun & Hasm).
      rewrite (bind_ok _ _ _ _ _ (bind_ok _ _ _ _ _ Hasm)). simpl.
      split; [|reflexivity]. exact (with_interaction_consistent s built _ c' Hs Hrun).
  - rewrite diagonalize_unfold.
    destruct (interaction s) as [built|] eqn:Hbuilt.
    2:{ split; [exact Hs | reflexivity]. }
    destruct (stale s) eqn:Hstale.
    + assert (Hnoeig : eigen s = None).
      { destruct (eigen s) as [e|] eqn:He; [|reflexivity].
        destruct Heig as [_ Hfresh]; [eauto | congruence]. }
      assert (Hstage : stage_of s = InteractionBuilt)
        by (unfold stage_of; now rewrite Hnoeig, Hbuilt).
      destruct (invalid_geometry (geometry s)) eqn:Hgeo.
      * rewrite (assembleInteraction_invalid s Hgeo).
        split; [exact Hs | reflexivity].
      * destruct (assembleInteraction_valid s Hgeo) as (o & c' & Hrun & Hasm).
        rewrite Hasm.
        pose proof (with_interaction_consistent s o _ c' Hs Hrun) as Hnew.
        destruct (solve (diagonal s) o tolerance) as [e|e]; simpl.
        -- split; [|reflexivity]. destruct Hnew as (Hd & Hi & _).
           split; [exact Hd|]. split; [exact Hi|]. intros _. split; [eauto | reflexivity].
        -- split; [exact Hnew|]. now rewrite Hstage.
    + destruct (solve (diagonal s) built tolerance) as [e|e]; simpl.
      * split; [|reflexivity]. split; [exact Hdiag|]. split.
        -- intros o Ho. apply Hint. simpl in Ho. congruence.
        -- intros _. split; [simpl; eauto | exact Hstale].
      * split; [exact Hs | reflexivity].
  - unfold getEigenvalues, fmap, M_fmap, mbind, M_bind, read, mret, M_ret, throw.
    destruct (eigen s); simpl; split; (exact Hs || reflexivity).
  - unfold getOverlap, fmap, M_fmap, mbind, M_bind, read, mret, M_ret, throw.
    destruct (eigen s); simpl; split; (exact Hs || reflexivity).
Qed.




Lemma run_all_app (ops1 ops2 : list Op) s :
  snd (run_all (ops1 ++ ops2) s) = snd (run_all ops2 (snd (run_all ops1 s))).
Proof.
  revert s. induction ops1 as [|op ops1 IH]; intros s; [reflexivity|].
  simpl. destruct (run op s) as [r s']. specialize (IH s').
  destruct (run_all (ops1 ++ ops2) s') as [rs s'']. simpl in IH.
  destruct (run_all ops1 s') as [rs1 s1]. simpl in *. exact IH.
Qed.

(** The reachable states are the states at the end of the scripts. *)
Lemma reachable_script s :
  reachable s <-> exists a b c ops, s = snd (run_all ops (create a b c)).
Proof.
  split.
  - induction 1 as [a b c|op s _ (a & b & c & ops & ->)].
    + now exists a, b, c, [].
    + exists a, b, c, (ops ++ [op])%list. rewrite run_all_app. simpl.
      now destruct (run op (snd (run_all ops (create a b c)))).
  - intros (a & b & c & ops & ->).
    induction ops as [|op ops IH] using rev_ind; [constructor|].
    rewrite run_all_app. simpl.
    destruct (run op (snd (run_all ops (create a b c)))) as [r s'] eqn:Hrun. simpl.
    replace s' with (snd (run op (snd (run_all ops (create a b c))))) by now rewrite Hrun.
    now constructor.
Qed.

Lemma reachable_consistent s : reachable s -> consistent s.
Proof.
  induction 1 as [a b c|op s _ IH].
  - apply create_consistent.
  - now apply run_step.
Qed.

End SystemFacts.

(** In the real-valued build the interaction operator of every reachable
    System is Hermitian. *)
Lemma reachable_interaction_hermitian {atomic : AtomicData} {libm : Libm}
  {physics : OperatorAssembler.Physics Q} {numerics : Numerics Q}
  (s : SystemTwo.System (Sc := Q)) (op : Operator Q) :
  SystemTwo.reachable s -> SystemTwo.interaction s = Some op ->
  forall i j, entry op i j = conjugate (entry op j i).
Proof.
  intros Hreach Hop i j.
  destruct (reachable_consistent s Hreach) as (_ & Hint & _).
  destruct (Hint op Hop) as [_ Hsym]. simpl. apply Hsym.
Qed.

(** ** The System on concrete collaborators *)

Section SystemExamples.
Import SystemTwo.

Lemma setSurfaceDistance_GeometryError_witness :
  @setSurfaceDistance Q example_libm 1 example_configured
  = (Err GeometryError, example_configured).
Proof.
  apply (@setSurfaceDistance_GeometryError Q example_libm example_configured 1).
  - reflexivity.
  - vm_compute. reflexivity.
Defined.


(** Eigenvalues requested before any build step has run. *)
Example eigenvalues_before_build :
  fst (@run Q pireal hydrogenic example_libm example_physics example_numerics
         GetEigenvalues example_system)
  = Err NotReadyError.
Proof. reflexivity. Qed.

(** The calls of vdw_near_surface.ipynb in their order, with two rounds of
    the loop: every one succeeds. *)
Example vdw_near_surface_script :
  fst (@run_all Q pireal hydrogenic example_libm example_physics example_numerics
         [RestrictEnergy (-1) 1; SetAngle (3 # 2); SetDistance 10; SetSurfaceDistance 0;
          EnableGreenTensor true; BuildInteraction;
          SetSurfaceDistance 0; Diagonalize 0;
          GetOverlap (StateTwo_states (StateOne_qn "Rb" 69 0 1 1) (StateOne_qn "Rb" 72 0 1 1))
            (0, - (3 # 2), 0)%Q;
          GetEigenvalues;
          SetSurfaceDistance 20; Diagonalize 0;
          GetOverlap (StateTwo_states (StateOne_qn "Rb" 69 0 1 1) (StateOne_qn "Rb" 72 0 1 1))
            (0, - (3 # 2), 0)%Q;
          GetEigenvalues] example_system)
  = [Ok Unit; Ok Unit; Ok Unit; Ok Unit; Ok Unit; Ok Unit;
     Ok Unit; Ok Unit; Ok (Numbers [1; 0]%Q);
     Ok (Numbers [(-1 / inject_Z (69 * 69) + -1 / inject_Z (72 * 72))%Q;
                  (-1 / inject_Z (70 * 70) + -1 / inject_Z (72 * 72))%Q]);
     Ok Unit; Ok Unit; Ok (Numbers [1; 0]%Q);
     Ok (Numbers [(-1 / inject_Z (69 * 69) + -1 / inject_Z (72 * 72))%Q;
                  (-1 / inject_Z (70 * 70) + -1 / inject_Z (72 * 72))%Q])].
Proof. vm_compute. reflexivity. Qed.

(** The calls of pair_potential_near_surface.ipynb in their order, with
    two rounds of [getDiagonalizedSystems]: every one succeeds. *)
Example pair_potential_near_surface_script :
  fst (@run_all Q pireal hydrogenic example_libm example_physics example_numerics
         [RestrictEnergy (-1) 1; SetAngle (3 # 2); EnableGreenTensor true; SetDistance 6;
          SetSurfaceDistance 1; BuildInteraction;
          SetSurfaceDistance (inject_Z (10 ^ 12)); SetDistance 6; Diagonalize (1 # 1000);
          GetEigenvalues;
          SetSurfaceDistance 1; SetDistance (3 # 2); Diagonalize (1 # 1000);
          GetEigenvalues] example_system)
  = [Ok Unit; Ok Unit; Ok Unit; Ok Unit; Ok Unit; Ok Unit;
     Ok Unit; Ok Unit; Ok Unit;
     Ok (Numbers [(-1 / inject_Z (69 * 69) + -1 / inject_Z (72 * 72))%Q;
                  (-1 / inject_Z (70 * 70) + -1 / inject_Z (72 * 72))%Q]);
     Ok Unit; Ok Unit; Ok Unit;
     Ok (Numbers [(-1 / inject_Z (69 * 69) + -1 / inject_Z (72 * 72))%Q;
                  (-1 / inject_Z (70 * 70) + -1 / inject_Z (72 * 72))%Q])].
Proof. vm_compute. reflexivity. Qed.

(** Out of order: the diagonalization before the interaction was ever
    built; the overlap after a change of geometry that ended the validity
    of the eigen-decomposition. *)
Example out_of_order_script :
  fst (@run_all Q pireal hydrogenic example_libm example_physics example_numerics
         [Diagonalize 0; BuildInteraction; GetEigenvalues; Diagonalize 0; SetDistance 5;
          GetOverlap (StateTwo_states (StateOne_qn "Rb" 69 0 1 1) (StateOne_qn "Rb" 72 0 1 1))
            (0, 0, 0)%Q;
          RestrictEnergy (-1) 1; Diagonalize 0] example_system)
  = [Err NotReadyError; Ok Unit; Err NotReadyError; Ok Unit; Ok Unit;
     Err NotReadyError; Ok Unit; Err NotReadyError].
Proof. vm_compute. reflexivity. Qed.

(** The surface distance set before the surface term is enabled: the
    setter accepts it, the build refuses the configuration. *)
Example surface_below_atoms_script :
  fst (@run_all Q pireal hydrogenic example_libm example_physics example_numerics
         [SetAngle 0; SetDistance 10; SetSurfaceDistance 1;
          EnableGreenTensor true; BuildInteraction; SetSurfaceDistance 2;
          SetSurfaceDistance 5; BuildInteraction] example_system)
  = [Ok Unit; Ok Unit; Ok Unit; Ok Unit; Err GeometryError;
     Err GeometryError; Ok Unit; Ok Unit].
Proof. vm_compute. reflexivity. Qed.

End SystemExamples.

(** ** More facts about SystemBase.cpp *)

Section LabelFacts.

Lemma string_length_append (s t : string) :
  String.length (s +:+ t) = (String.length s + String.length t)%nat.
Proof. induction s as [|c s IH]; simpl; [reflexivity | now rewrite IH]. Qed.

Lemma append_not_self (p s : string) : p <> "" -> p +:+ s <> s.
Proof.
  intros Hp Heq. apply (f_equal String.length) in Heq.
  rewrite string_length_append in Heq.
  destruct p; [congruence | simpl in Heq; lia].
Qed.

(** X1: two labels give the same pair state only if they are the same
    label. *)
Theorem createStateFromLabel_StateTwo_inj (s t : string) :
  createStateFromLabel (T := StateTwo) s = createStateFromLabel (T := StateTwo) t
  <-> s = t.
Proof.
  split; [|now intros ->].
  intros Heq. injection Heq as Hfirst _. exact Hfirst.
Qed.

(** X2: the first atom of a pair state built from a label is never the
    second atom of a pair state built from a label, whatever the two
    labels are: the per-atom labels of the two atoms cannot collide. *)
Theorem createStateFromLabel_StateTwo_atoms_disjoint (s t : string) :
  first (createStateFromLabel (T := StateTwo) s)
  <> second (createStateFromLabel (T := StateTwo) t).
Proof. simpl. discriminate. Qed.

(** X3: the single-atom state built from a label is neither component of
    the pair state built from the same label: the pair state never
    carries the label as it was given. *)
Theorem createStateFromLabel_StateOne_not_component (s : string) :
  createStateFromLabel (T := StateOne) s <> first (createStateFromLabel (T := StateTwo) s)
  /\ createStateFromLabel (T := StateOne) s <> second (createStateFromLabel (T := StateTwo) s).
Proof.
  split; intros Heq; injection Heq as Heq; symmetry in Heq.
  - now apply (append_not_self "0_" s).
  - now apply (append_not_self "1_" s).
Qed.

End LabelFacts.

(** ** Facts about the notebook test names of CMakeLists.txt *)

Section TestNameFacts.
Import CMake.

Lemma no_dot_with_dot (s t : string) : no_dot (s +:+ String "." t) = false.
Proof.
  induction s as [|c s IH]; simpl; [reflexivity|].
  rewrite IH. apply andb_false_r.
Qed.

Lemma append_cancel_l (p a b : string) : p +:+ a = p +:+ b -> a = b.
Proof.
  induction p as [|c p IH]; intros Heq; [exact Heq|].
  injection Heq as Heq. now apply IH.
Qed.

Lemma regex_replace_extension_strips (base ext : string) :
  no_dot ext = true -> regex_replace_extension (base +:+ String "." ext) = base.
Proof.
  intros Hext. induction base as [|c base IH]; simpl.
  - now rewrite Hext.
  - rewrite no_dot_with_dot, andb_false_r. now rewrite IH.
Qed.

Lemma regex_replace_extension_cuts_suffix (input : string) :
  (no_dot input = true /\ regex_replace_extension input = input)
  \/ (exists ext : string,
        no_dot ext = true /\ input = regex_replace_extension input +:+ "." +:+ ext).
Proof.
  induction input as [|c input IH]; [left; split; reflexivity|].
  simpl. destruct (Ascii.eqb c ".") eqn:Hc; simpl.
  - apply Ascii.eqb_eq in Hc as ->.
    destruct (no_dot input) eqn:Hinput.
    + right. exists input. split; [assumption | reflexivity].
    + right. destruct IH as [[Hno _]|(ext & Hext & Hinput')]; [congruence|].
      exists ext. split; [assumption|]. exact (f_equal (String _) Hinput').
  - destruct IH as [[Hno Hsame]|(ext & Hext & Hinput')].
    + left. split; [assumption | now rewrite Hsame].
    + right. exists ext. split; [assumption|]. exact (f_equal (String _) Hinput').
Qed.

Lemma append_empty_r (s : string) : s +:+ EmptyString = s.
Proof. induction s as [|c s IH]; [reflexivity|]. exact (f_equal (String c) IH). Qed.

Lemma push_append (element : string) (c : ascii) (rest : string) :
  push element c +:+ rest = element +:+ String c rest.
Proof.
  unfold push. induction element as [|d element IH]; [reflexivity|].
  exact (f_equal (String d) IH).
Qed.

Lemma no_semicolon_append (s t : string) :
  no_semicolon (s +:+ t) = no_semicolon s && no_semicolon t.
Proof.
  induction s as [|c s IH]; [reflexivity|].
  change (no_semicolon (String c (s +:+ t))
          = no_semicolon (String c s) && no_semicolon t).
  simpl. now rewrite IH, andb_assoc.
Qed.

(** A value without [;] is one element, or none when it is empty. *)
Lemma divide_no_semicolon (value : string) :
  forall nesting element, no_semicolon value = true ->
    divide nesting element value = close (element +:+ value) [].
Proof.
  induction value as [|c value IH]; intros nesting element Hvalue.
  - simpl. now rewrite append_empty_r.
  - simpl in Hvalue. apply andb_true_iff in Hvalue as [Hc Hvalue].
    apply negb_true_iff in Hc. simpl. rewrite Hc.
    assert (Hnext : forall k, divide k (push element c) value
                              = close (element +:+ String c value) []).
    { intros k. rewrite (IH k _ Hvalue). now rewrite push_append. }
    destruct (Ascii.eqb c "\").
    + destruct value as [|c' value']; [apply Hnext|].
      simpl in Hvalue. apply andb_true_iff in Hvalue as [Hc' _].
      apply negb_true_iff in Hc'. rewrite Hc'. apply Hnext.
    + destruct (Ascii.eqb c "["); [apply Hnext|].
      destruct (Ascii.eqb c "]"); apply Hnext.
Qed.

Lemma NOTEBOOK_NAME_single (file : string) :
  no_semicolon file = true -> file <> EmptyString ->
  NOTEBOOK_NAME file = Some (regex_replace_extension file).
Proof.
  intros Hfile Hsome. unfold NOTEBOOK_NAME, expand_unquoted.
  rewrite (divide_no_semicolon file 0 EmptyString Hfile).
  destruct file as [|c file]; [congruence | reflexivity].
Qed.

Lemma NOTEBOOK_NAME_strips (base ext : string) :
  no_dot ext = true -> no_semicolon base = true -> no_semicolon ext = true ->
  NOTEBOOK_NAME (base +:+ String "." ext) = Some base.
Proof.
  intros Hext Hbase Hsemi. rewrite NOTEBOOK_NAME_single.
  - now rewrite regex_replace_extension_strips.
  - rewrite no_semicolon_append, Hbase. simpl. exact Hsemi.
  - destruct base; discriminate.
Qed.

(** X4: for a file name [base.ext] without [;] whose extension holds no
    dot the test is named after [base]: exactly the last extension is
    removed, also when [base] itself contains dots or is empty. *)
Theorem NOTEBOOK_NAME_extension (base ext : string) :
  no_dot ext = true -> no_semicolon base = true -> no_semicolon ext = true ->
  NOTEBOOK_NAME (base +:+ "." +:+ ext) = Some base
  /\ test_name (base +:+ "." +:+ ext) = Some ("notebook." +:+ base).
Proof.
  intros Hext Hbase Hsemi. unfold test_name.
  change (base +:+ "." +:+ ext) with (base +:+ String "." ext).
  now rewrite (NOTEBOOK_NAME_strips base ext Hext Hbase Hsemi).
Qed.

(** X5: for a non-empty file name without [;] the name is the file name
    with at most one extension cut off its end: a file name without a dot
    is kept as it is, and otherwise what is cut is a dot followed by
    dot-free text.  Nothing is inserted or reordered. *)
Theorem NOTEBOOK_NAME_cuts_suffix (file : string) :
  no_semicolon file = true -> file <> EmptyString ->
  exists name : string,
    NOTEBOOK_NAME file = Some name
    /\ ((no_dot file = true /\ name = file)
        \/ (exists ext : string, no_dot ext = true /\ file = name +:+ "." +:+ ext)).
Proof.
  intros Hfile Hsome. exists (regex_replace_extension file).
  split; [now apply NOTEBOOK_NAME_single|].
  apply regex_replace_extension_cuts_suffix.
Qed.

(** X6: two distinct notebooks [a.ext] and [b.ext] with the same dot-free
    extension and no [;] in their names get distinct test names. *)
Theorem test_name_inj (a b ext : string) :
  no_dot ext = true ->
  no_semicolon a = true -> no_semicolon b = true -> no_semicolon ext = true ->
  a <> b ->
  test_name (a +:+ "." +:+ ext) <> test_name (b +:+ "." +:+ ext).
Proof.
  intros Hext Ha Hb Hsemi Hdiff. unfold test_name.
  change (a +:+ "." +:+ ext) with (a +:+ String "." ext).
  change (b +:+ "." +:+ ext) with (b +:+ String "." ext).
  rewrite (NOTEBOOK_NAME_strips a ext Hext Ha Hsemi).
  rewrite (NOTEBOOK_NAME_strips b ext Hext Hb Hsemi).
  intros Heq. apply Hdiff. apply (append_cancel_l "notebook.").
  exact (Some_inj _ _ Heq).
Qed.

End TestNameFacts.

Lemma NOTEBOOK_NAME_extension_witness :
  CMake.NOTEBOOK_NAME ("vdw_near_surface" +:+ "." +:+ "ipynb") = Some "vdw_near_surface"
  /\ CMake.test_name ("vdw_near_surface" +:+ "." +:+ "ipynb")
     = Some ("notebook." +:+ "vdw_near_surface").
Proof.
  apply (NOTEBOOK_NAME_extension "vdw_near_surface" "ipynb"); reflexivity.
Defined.

Lemma NOTEBOOK_NAME_cuts_suffix_witness :
  exists name : string,
    CMake.NOTEBOOK_NAME "matrix_elements.ipynb" = Some name
    /\ ((CMake.no_dot "matrix_elements.ipynb" = true /\ name = "matrix_elements.ipynb")
        \/ (exists ext : string,
              CMake.no_dot ext = true /\ "matrix_elements.ipynb" = name +:+ "." +:+ ext)).
Proof.
  apply (NOTEBOOK_NAME_cuts_suffix "matrix_elements.ipynb"); [reflexivity | discriminate].
Defined.

Lemma test_name_inj_witness :
  CMake.test_name ("introduction" +:+ "." +:+ "ipynb")
  <> CMake.test_name ("matrix_elements" +:+ "." +:+ "ipynb").
Proof.
  apply (test_name_inj "introduction" "matrix_elements" "ipynb");
    [reflexivity | reflexivity | reflexivity | reflexivity | discriminate].
Defined.

(** The tests that CMakeLists.txt adds, without and with GSL. *)
Example notebook_tests_added :
  CMake.notebook_tests false
  = [Some "notebook.introduction"; Some "notebook.matrix_elements";
     Some "notebook.vdw_near_surface"]
  /\ CMake.notebook_tests true
     = [Some "notebook.introduction"; Some "notebook.matrix_elements";
        Some "notebook.vdw_near_surface"; Some "notebook.wavefunctions"].
Proof. split; reflexivity. Qed.

(** Outside these file names: a [;] in the value of [file] divides it, and
    the pieces are concatenated, so two files can share a test name; with
    an empty value the command has no input. *)
Example NOTEBOOK_NAME_semicolon :
  CMake.NOTEBOOK_NAME "a;b.ipynb" = Some "ab"
  /\ CMake.NOTEBOOK_NAME "ab.ipynb" = Some "ab"
  /\ CMake.NOTEBOOK_NAME "a[;]b.ipynb" = Some "a[;]b"
  /\ CMake.NOTEBOOK_NAME "" = None
  /\ CMake.NOTEBOOK_NAME ";" = None.
Proof. repeat split; reflexivity. Qed.

(** ** Facts about the notebooks *)

Section WindowFacts.
Import Notebook.

Lemma window_around_contains (a b margin : Z) :
  (0 <= margin)%Z ->
  inside (window_around a b margin) a /\ inside (window_around a b margin) b.
Proof. unfold inside, window_around. simpl. lia. Qed.

(** X7: whatever the quantum numbers of the two seed states are, the n
    and l windows that the two notebooks pass to [restrictN] and
    [restrictL] contain the quantum numbers of both seed states. *)
Theorem notebook_windows_contain_seeds (n1 n2 l1 l2 : Z) :
  (inside (vdw_n_window n1 n2) n1 /\ inside (vdw_n_window n1 n2) n2)
  /\ (inside (vdw_l_window l1 l2) l1 /\ inside (vdw_l_window l1 l2) l2)
  /\ (inside (pair_potential_n_window n1 n2) n1 /\ inside (pair_potential_n_window n1 n2) n2)
  /\ (inside (pair_potential_l_window l1 l2) l1 /\ inside (pair_potential_l_window l1 l2) l2).
Proof. repeat split; apply window_around_contains; lia. Qed.

End WindowFacts.

Section LinspaceFacts.
Import Notebook.
Local Open Scope Q_scope.

Lemma length_linspace (start stop : Q) (num : nat) :
  length (linspace start stop num) = num.
Proof.
  destruct num as [|[|div]]; [reflexivity..|].
  unfold linspace. rewrite length_app, length_fmap, length_seq. simpl. lia.
Qed.

Lemma linspace_between (start stop : Q) (num : nat) (x : Q) :
  start <= stop -> x ∈ linspace start stop num -> start <= x /\ x <= stop.
Proof.
  intros Hle Hin. destruct num as [|[|n]].
  - now apply elem_of_nil in Hin.
  - apply list_elem_of_singleton in Hin as ->. split; [apply Qle_refl | assumption].
  - unfold linspace in Hin. apply elem_of_app in Hin as [Hin|Hin].
    + apply list_elem_of_fmap in Hin as (i & -> & Hi).
      apply elem_of_seq in Hi.
      set (D := inject_Z (Z.of_nat (S n))) in *.
      set (I := inject_Z (Z.of_nat i)).
      assert (HD : 0 < D) by (unfold D; rewrite <- (Zlt_Qlt 0); lia).
      assert (HI0 : 0 <= I) by (unfold I; rewrite <- (Zle_Qle 0); lia).
      assert (HID : I <= D) by (unfold I, D; rewrite <- Zle_Qle; lia).
      assert (Hstep : 0 <= (stop - start) / D)
        by (apply Qle_shift_div_l; [assumption | lra]).
      assert (Hfull : D * ((stop - start) / D) == stop - start)
        by (apply Qmult_div_r; lra).
      pose proof (Qmult_le_0_compat _ _ HI0 Hstep) as Hlow.
      pose proof (Qmult_le_compat_r _ _ _ HID Hstep) as Hhigh.
      rewrite Hfull in Hhigh. split; lra.
    + apply list_elem_of_singleton in Hin as ->. split; [assumption | apply Qle_refl].
Qed.

Context `{Libm}.

(** X8: for a non-negative interatomic distance (and a cosine of modulus
    at most 1) the sweep of surface distances has 30 samples, starts at
    [distance_atoms*|cos(theta)|/2], ends at [2*distance_atoms], and every
    sample lies between the two: none is smaller than
    [distance_atoms*cos(theta)/2], the value below which an atom would lie
    inside the plate. *)
Theorem distance_surface_above_bound (theta distance_atoms : Q) :
  0 <= distance_atoms -> Qabs (cos theta) <= 1 ->
  length (distance_surface theta distance_atoms) = 30%nat
  /\ (exists x0, head (distance_surface theta distance_atoms) = Some x0
                 /\ x0 == distance_atoms * Qabs (cos theta) / 2)
  /\ last (distance_surface theta distance_atoms) = Some (2 * distance_atoms)
  /\ forall x, x ∈ distance_surface theta distance_atoms ->
       distance_atoms * Qabs (cos theta) / 2 <= x
       /\ x <= 2 * distance_atoms
       /\ ~ x < distance_atoms * cos theta / 2.
Proof.
  intros Hd Hcos. split; [apply length_linspace|].
  split; [eexists; split; [reflexivity|]; simpl; now rewrite Qmult_0_l, Qplus_0_l|].
  split; [reflexivity|].
  intros x Hin.
  pose proof (Qabs_nonneg (cos theta)) as Habs0.
  pose proof (Qle_Qabs (cos theta)) as Habs.
  assert (Hprod : distance_atoms * Qabs (cos theta) <= distance_atoms * 1).
  { rewrite !(Qmult_comm distance_atoms). now apply Qmult_le_compat_r. }
  assert (Hsigned : distance_atoms * cos theta <= distance_atoms * Qabs (cos theta)).
  { rewrite !(Qmult_comm distance_atoms). now apply Qmult_le_compat_r. }
  assert (Hhalf : forall y, y / 2 == y * (1 # 2)) by (intros y; reflexivity).
  assert (Hrange : distance_atoms * Qabs (cos theta) / 2 <= 2 * distance_atoms)
    by (rewrite Hhalf; lra).
  destruct (linspace_between _ _ _ x Hrange Hin) as [Hlow Hhigh].
  repeat split; [assumption..|]. rewrite Hhalf in Hlow |- *. lra.
Qed.

End LinspaceFacts.

Lemma distance_surface_above_bound_witness :
  length (@Notebook.distance_surface example_libm 0 10) = 30%nat
  /\ (exists x0, head (@Notebook.distance_surface example_libm 0 10) = Some x0
                 /\ (x0 == 10 * Qabs (@cos example_libm 0) / 2)%Q)
  /\ last (@Notebook.distance_surface example_libm 0 10) = Some (2 * 10)%Q
  /\ forall x, x ∈ @Notebook.distance_surface example_libm 0 10 ->
       (10 * Qabs (@cos example_libm 0) / 2 <= x
        /\ x <= 2 * 10
        /\ ~ x < 10 * @cos example_libm 0 / 2)%Q.
Proof.
  apply (@distance_surface_above_bound example_libm 0 10).
  - vm_compute. discriminate.
  - vm_compute. discriminate.
Defined.

Section SweepFacts.
Import Notebook.
Local Open Scope list_scope.

(** Concatenating blocks of one common length [n]: the entry [i*n + k]
    is the entry [k] of the block made from the [i]-th element. *)
Lemma lookup_bind_uniform {A B : Type} (g : A -> list B) (n : nat) (l : list A) :
  (forall a, length (g a) = n) ->
  forall i k, k < n -> (l ≫= g) !! (i * n + k)%nat = l !! i ≫= fun a => g a !! k.
Proof.
  intros Hlen. induction l as [|a l IH]; intros i k Hk; [reflexivity|].
  rewrite bind_cons. destruct i as [|i]; simpl.
  - apply lookup_app_l. rewrite Hlen. exact Hk.
  - rewrite lookup_app_r by (rewrite Hlen; lia).
    rewrite Hlen. replace (n + i * n + k - n)%nat with (i * n + k)%nat by lia.
    now apply IH.
Qed.

Lemma length_bind_uniform {A B : Type} (g : A -> list B) (n : nat) (l : list A) :
  (forall a, length (g a) = n) -> length (l ≫= g) = (length l * n)%nat.
Proof.
  intros Hlen. induction l as [|a l IH]; [reflexivity|].
  rewrite bind_cons, length_app, Hlen, IH. reflexivity.
Qed.

Lemma concat_fmap_bind {A B : Type} (g : A -> list B) (l : list A) :
  concat (g <$> l) = l ≫= g.
Proof.
  induction l as [|a l IH]; [reflexivity|].
  rewrite fmap_cons, bind_cons. cbn [concat]. now rewrite IH.
Qed.

Lemma bind_singleton_fmap {A B : Type} (g : A -> B) (l : list A) :
  (y ← l; [g y]) = g <$> l.
Proof.
  induction l as [|a l IH]; [reflexivity|].
  rewrite fmap_cons, bind_cons, IH. reflexivity.
Qed.

Lemma bind_fmap {A B C : Type} (g : A -> B) (h : B -> list C) (l : list A) :
  (g <$> l) ≫= h = l ≫= fun a => h (g a).
Proof.
  induction l as [|a l IH]; [reflexivity|].
  rewrite fmap_cons, !bind_cons, IH. reflexivity.
Qed.

(** [itertools.product] of a two-element list: first every pair with the
    first element, then every pair with the second. *)
Lemma product_two {A B : Type} (a0 a1 : A) (ys : list B) :
  product [a0; a1] ys = (pair a0 <$> ys) ++ (pair a1 <$> ys).
Proof.
  unfold product. rewrite !bind_cons. simpl.
  now rewrite !bind_singleton_fmap, app_nil_r.
Qed.

Lemma np_array_uniform (rows : list (list Q)) (n : nat) :
  (forall r, r ∈ rows -> length r = n) ->
  exists a b, np_array rows = Some (a, b, concat rows).
Proof.
  intros Hlen. destruct rows as [|row rows]; [now exists 0, 0|].
  unfold np_array.
  assert (Hall : forallb (fun r => Nat.eqb (length r) (length row)) (row :: rows) = true).
  { apply forallb_forall. intros r Hr. apply Nat.eqb_eq.
    apply list_elem_of_In in Hr. rewrite (Hlen r Hr).
    symmetry. apply Hlen. left. }
  rewrite Hall. eauto.
Qed.

Lemma reshape_2_halves (a b : nat) (top bottom : list Q) :
  length top = length bottom ->
  reshape_2 (a, b, top ++ bottom) = Some [top; bottom].
Proof.
  intros Hlen. unfold reshape_2.
  assert (Hsize : length (top ++ bottom) = (length top * 2)%nat)
    by (rewrite length_app; lia).
  rewrite Hsize, Nat.even_mul, Nat.div_mul by lia.
  rewrite orb_true_r. now rewrite take_app_length, drop_app_length.
Qed.

Variable getDiagonalizedSystems : Q * Q -> list Q.
Variable getNumBasisvectors : nat.
Variables (distance_surface1 energyzero : Q) (distance_atom : list Q).
Hypothesis diagonal_length :
  forall distances, length (getDiagonalizedSystems distances) = getNumBasisvectors.

(** X9: when every diagonal has [getNumBasisvectors()] entries, [y] has
    two rows as long as [x], and they line up: at position [i*N + k], [x]
    holds the [i]-th interatomic distance, [y[0]] the [k]-th energy
    computed at that distance in free space and [y[1]] the one computed at
    the surface distance, each shifted by [energyzero]. *)
Theorem sweep_aligned :
  exists y0 y1 : list Q,
    sweep_y getDiagonalizedSystems distance_surface1 energyzero distance_atom
    = Some [y0; y1]
    /\ length y0 = length (sweep_x getNumBasisvectors distance_atom)
    /\ length y1 = length (sweep_x getNumBasisvectors distance_atom)
    /\ forall i k d,
         distance_atom !! i = Some d -> k < getNumBasisvectors ->
         sweep_x getNumBasisvectors distance_atom !! (i * getNumBasisvectors + k)%nat
         = Some d
         /\ y0 !! (i * getNumBasisvectors + k)%nat
            = (fun e => (e - energyzero)%Q) <$> getDiagonalizedSystems (free_space, d) !! k
         /\ y1 !! (i * getNumBasisvectors + k)%nat
            = (fun e => (e - energyzero)%Q)
                <$> getDiagonalizedSystems (distance_surface1, d) !! k.
Proof.
  set (shift := fun e => (e - energyzero)%Q).
  set (row := fun surface => distance_atom ≫= fun d => getDiagonalizedSystems (surface, d)).
  assert (Hrow_len : forall surface, length (row surface) = (length distance_atom * getNumBasisvectors)%nat).
  { intros surface. unfold row. apply length_bind_uniform. intros d. apply diagonal_length. }
  assert (Hflat : concat (energies getDiagonalizedSystems distance_surface1 distance_atom)
                  = row free_space ++ row distance_surface1).
  { unfold energies. rewrite concat_fmap_bind, product_two, bind_app, !bind_fmap.
    reflexivity. }
  assert (Hy : sweep_y getDiagonalizedSystems distance_surface1 energyzero distance_atom
               = Some [shift <$> row free_space; shift <$> row distance_surface1]).
  { destruct (np_array_uniform
                (energies getDiagonalizedSystems distance_surface1 distance_atom) getNumBasisvectors)
      as (a & b & Harray).
    { intros r Hr. unfold energies in Hr.
      apply list_elem_of_fmap in Hr as (p & -> & _). apply diagonal_length. }
    assert (Hhalves : length (row free_space) = length (row distance_surface1))
      by (now rewrite !Hrow_len).
    assert (Hrows : np_array (energies getDiagonalizedSystems distance_surface1 distance_atom)
                      ≫= reshape_2
                    = Some [row free_space; row distance_surface1]).
    { rewrite Harray, Hflat. exact (reshape_2_halves a b _ _ Hhalves). }
    unfold sweep_y. rewrite Hrows. reflexivity. }
  assert (Hx_len : length (sweep_x getNumBasisvectors distance_atom)
                   = (length distance_atom * getNumBasisvectors)%nat).
  { unfold sweep_x, np_repeat. apply length_bind_uniform. intros d. apply length_replicate. }
  exists (shift <$> row free_space), (shift <$> row distance_surface1).
  split; [exact Hy|]. rewrite !length_fmap, !Hrow_len, Hx_len.
  split; [reflexivity|]. split; [reflexivity|].
  intros i k d Hd Hk. repeat split.
  - unfold sweep_x, np_repeat.
    rewrite (lookup_bind_uniform _ getNumBasisvectors) by (assumption || intros; apply length_replicate).
    rewrite Hd. simpl. now apply lookup_replicate_2.
  - rewrite list_lookup_fmap. unfold row.
    rewrite (lookup_bind_uniform _ getNumBasisvectors) by (assumption || intros; apply diagonal_length).
    now rewrite Hd.
  - rewrite list_lookup_fmap. unfold row.
    rewrite (lookup_bind_uniform _ getNumBasisvectors) by (assumption || intros; apply diagonal_length).
    now rewrite Hd.
Qed.

End SweepFacts.

Lemma sweep_aligned_witness :
  let f := fun distances : Q * Q => [(fst distances + snd distances)%Q; snd distances] in
  exists y0 y1 : list Q,
    Notebook.sweep_y f 1 0 [6; 3]%Q = Some [y0; y1]
    /\ length y0 = length (Notebook.sweep_x 2 [6; 3]%Q)
    /\ length y1 = length (Notebook.sweep_x 2 [6; 3]%Q).
Proof.
  intros f.
  destruct (sweep_aligned f 2 1 0 [6; 3]%Q (fun _ => eq_refl))
    as (y0 & y1 & Hy & Hlen0 & Hlen1 & _).
  exists y0, y1. split; [exact Hy|]. split; assumption.
Defined.

(** The sweep on two distances and diagonals of two entries: the first row
    of [y] is the free-space run, the second the run at the surface
    distance, the distances in the order of [x]. *)
Example sweep_example :
  let f := fun distances : Q * Q => [fst distances; snd distances] in
  Notebook.sweep_x 2 [6; 3]%Q = [6; 6; 3; 3]%Q
  /\ Notebook.sweep_y f 1 0 [6; 3]%Q
     = Some [[Notebook.free_space - 0; 6 - 0; Notebook.free_space - 0; 3 - 0];
             [1 - 0; 6 - 0; 1 - 0; 3 - 0]]%Q.
Proof. split; reflexivity. Qed.

Section ArgmaxFacts.
Import Notebook.
Local Open Scope list_scope.

Lemma Qltb_spec (x y : Q) : Qltb x y = true <-> (x < y)%Q.
Proof.
  unfold Qltb. split.
  - intros Hb. apply Qnot_le_lt. intros Hle. apply Qle_bool_iff in Hle.
    rewrite Hle in Hb. discriminate.
  - intros Hlt. destruct (Qle_bool y x) eqn:Hle; [|reflexivity].
    apply Qle_bool_iff in Hle. exfalso. exact (Qlt_not_le _ _ Hlt Hle).
Qed.

Lemma Qltb_false (x y : Q) : Qltb x y = false -> (y <= x)%Q.
Proof.
  intros Hb. apply Qnot_lt_le. intros Hlt. apply Qltb_spec in Hlt. congruence.
Qed.

(** The scan keeps the first maximum of what it has seen. *)
Lemma argmax_from_spec (a : list Q) :
  forall (seen : list Q) (best_index : nat) (best : Q),
    seen !! best_index = Some best ->
    (forall j v, seen !! j = Some v -> (v <= best)%Q) ->
    (forall j v, j < best_index -> seen !! j = Some v -> (v < best)%Q) ->
    exists w,
      (seen ++ a) !! argmax_from best_index best (length seen) a = Some w
      /\ (forall j v, (seen ++ a) !! j = Some v -> (v <= w)%Q)
      /\ (forall j v, j < argmax_from best_index best (length seen) a ->
            (seen ++ a) !! j = Some v -> (v < w)%Q).
Proof.
  induction a as [|x a IH]; intros seen best_index best Hbest Hmax Hfirst.
  - exists best. rewrite app_nil_r. simpl. auto.
  - simpl. replace (seen ++ x :: a) with ((seen ++ [x]) ++ a) by now rewrite <- app_assoc.
    replace (S (length seen)) with (length (seen ++ [x]))
      by (rewrite length_app; simpl; lia).
    destruct (Qltb best x) eqn:Hcmp.
    + apply Qltb_spec in Hcmp. apply IH.
      * rewrite lookup_app_r by lia. now rewrite Nat.sub_diag.
      * intros j v Hj. apply lookup_app_Some in Hj as [Hj|[Hge Hj]].
        -- apply Qlt_le_weak. eapply Qle_lt_trans; [exact (Hmax j v Hj) | exact Hcmp].
        -- destruct (j - length seen) as [|k]; simpl in Hj; [|discriminate].
           injection Hj as <-. apply Qle_refl.
      * intros j v Hlt Hj. rewrite lookup_app_l in Hj by exact Hlt.
        eapply Qle_lt_trans; [exact (Hmax j v Hj) | exact Hcmp].
    + apply Qltb_false in Hcmp. pose proof (lookup_lt_Some _ _ _ Hbest) as Hin. apply IH.
      * now rewrite lookup_app_l.
      * intros j v Hj. apply lookup_app_Some in Hj as [Hj|[Hge Hj]].
        -- exact (Hmax j v Hj).
        -- destruct (j - length seen) as [|k]; simpl in Hj; [|discriminate].
           now injection Hj as <-.
      * intros j v Hlt Hj. rewrite lookup_app_l in Hj by lia.
        exact (Hfirst j v Hlt Hj).
Qed.

(** X10: on a non-empty overlap vector and a diagonal of the same length
    the loop body raises nothing: [np.argmax] picks the first eigenstate of
    maximal overlap, the diagonal has an entry there, and the appended
    value is that energy minus the state energy, times
    [distance_atoms**6]. *)
Theorem c6_coefficient_defined (overlap diagonal : list Q) (state_energy distance_atoms : Q) :
  overlap <> [] -> length overlap = length diagonal ->
  exists (idx : nat) (w e : Q),
    np_argmax overlap = inr idx
    /\ overlap !! idx = Some w
    /\ (forall j v, overlap !! j = Some v -> (v <= w)%Q)
    /\ (forall j v, j < idx -> overlap !! j = Some v -> (v < w)%Q)
    /\ diagonal !! idx = Some e
    /\ c6_coefficient overlap diagonal state_energy distance_atoms
       = inr ((e - state_energy) * distance_atoms ^ 6)%Q.
Proof.
  intros Hne Hlen. destruct overlap as [|x a]; [congruence|].
  destruct (argmax_from_spec a [x] 0 x eq_refl) as (w & Hw & Hmax & Hfirst).
  - intros [|j] v Hj; simpl in Hj; [|discriminate]. injection Hj as <-. apply Qle_refl.
  - intros j v Hlt. lia.
  - simpl in Hw, Hmax, Hfirst.
    destruct (diagonal !! argmax_from 0 x 1 a) as [e|] eqn:He.
    + exists (argmax_from 0 x 1 a), w, e. unfold c6_coefficient. simpl. rewrite He.
      repeat split; assumption || reflexivity.
    + apply lookup_ge_None in He. apply lookup_lt_Some in Hw.
      rewrite <- Hlen in He. lia.
Qed.

(** X11: [np.argmax] raises [ValueError] exactly on the empty overlap
    vector, that is for an empty basis, and then nothing is appended; an
    [IndexError] needs a diagonal shorter than the overlap vector. *)
Theorem c6_coefficient_errors (overlap diagonal : list Q) (state_energy distance_atoms : Q) :
  (c6_coefficient overlap diagonal state_energy distance_atoms = inl ValueError
   <-> overlap = [])
  /\ (c6_coefficient overlap diagonal state_energy distance_atoms = inl IndexError
      -> length diagonal < length overlap).
Proof.
  unfold c6_coefficient. destruct overlap as [|x a]; simpl.
  - split; [tauto | discriminate].
  - destruct (argmax_from_spec a [x] 0 x eq_refl) as (w & Hw & _).
    + intros [|j] v Hj; simpl in Hj; [|discriminate]. injection Hj as <-. apply Qle_refl.
    + intros j v Hlt. lia.
    + simpl in Hw. apply lookup_lt_Some in Hw.
      destruct (diagonal !! argmax_from 0 x 1 a) eqn:He.
      * split; [split; discriminate | discriminate].
      * apply lookup_ge_None in He. split; [split; discriminate|]. intros _.
        simpl in Hw. lia.
Qed.

End ArgmaxFacts.

Lemma c6_coefficient_defined_witness :
  exists (idx : nat) (w e : Q),
    Notebook.np_argmax [1 # 10; 7 # 10; 7 # 10]%Q = inr idx
    /\ [1 # 10; 7 # 10; 7 # 10]%Q !! idx = Some w
    /\ (forall j v, [1 # 10; 7 # 10; 7 # 10]%Q !! j = Some v -> (v <= w)%Q)
    /\ (forall j v, j < idx -> [1 # 10; 7 # 10; 7 # 10]%Q !! j = Some v -> (v < w)%Q)
    /\ [-3; -2; -1]%Q !! idx = Some e
    /\ Notebook.c6_coefficient [1 # 10; 7 # 10; 7 # 10]%Q [-3; -2; -1]%Q 0 10
       = inr ((e - 0) * 10 ^ 6)%Q.
Proof.
  apply (c6_coefficient_defined [1 # 10; 7 # 10; 7 # 10]%Q [-3; -2; -1]%Q 0 10).
  - discriminate.
  - reflexivity.
Defined.

(** Two eigenstates share the largest overlap: the first one is taken. *)
Example c6_coefficient_example :
  Notebook.c6_coefficient [1 # 10; 7 # 10; 7 # 10]%Q [-3; -2; -1]%Q 0 10
  = inr ((-2 - 0) * 10 ^ 6)%Q.
Proof. reflexivity. Qed.
